(** * PageRank: the transition model, the sampling estimator and the
      iterative solver of [pagerank.py], embedded and verified.

    The three functions are written twice.  The first embedding is by value:
    a dictionary is an association list in insertion order, a call returns a
    value or raises.  It is written once over an abstract arithmetic ([Num]),
    Python's [float] operations being the operations of the class, with two
    instances: [Q], exact rational arithmetic, the real-number reading of the
    program, in which the general theorems are proved; and [float], IEEE
    binary64 (the kernel's primitive floats), the arithmetic the interpreter
    performs, in which the same definitions are run on concrete inputs.  The
    second embedding ([Store]) is by reference: dictionaries, sets and lists
    are objects in a store, and it is there that a call is shown to leave the
    caller's graph alone.

    The crawler [crawl] is embedded by value, over a directory given as the
    list of its file names with their texts and over the result of the
    regular-expression search, which is a parameter.  [main], which prints
    formatted numbers, is not embedded; the calls it chains are.

    The file has the definitions first (Python values, the program by value,
    the program over a store, the vocabulary of the statements), then the
    lemmas and the theorems: those about the three functions first, then the
    further properties of the code, [crawl] included. *)

From Stdlib Require Import List String ZArith QArith Qabs Qround Bool Lia Lqa.

From Stdlib Require Import Setoid Morphisms PrimFloat Uint63.

Import ListNotations.

Set Implicit Arguments.

(** ** Python values: exceptions, sets and dictionaries *)

Inductive exn : Set :=
| KeyError
| ZeroDivisionError
| ValueError
| IndexError
| TypeError.

Inductive result (A : Type) : Type :=
| Ok (a : A)
| Raise (e : exn).

Arguments Ok {A} a.

Arguments Raise {A} e.

Definition bind {A B : Type} (c : result A) (k : A -> result B) : result B :=
  match c with
  | Ok a => k a
  | Raise e => Raise e
  end.

Notation "x <- c ;; k" := (bind c (fun x => k))
  (at level 61, c at next level, right associativity).

(** [for x in xs: s = body x s], stopping at the first exception. *)
Fixpoint for_in {A S : Type} (xs : list A) (body : A -> S -> result S) (s : S)
  : result S :=
  match xs with
  | [] => Ok s
  | x :: xs' => s' <- body x s ;; for_in xs' body s'
  end.

Definition pagename := string.

Bind Scope string_scope with pagename.

(** A set of page names.  The program only takes [len] of a set and tests
    membership in it, so the (arbitrary) order of the elements is never
    observed; a set is a list without repetitions. *)
Definition pyset := list pagename.

(** A dictionary keyed by page names, in insertion order. *)
Definition pydict (V : Type) := list (pagename * V).

Definition keys {V : Type} (d : pydict V) : list pagename := map fst d.

Definition values {V : Type} (d : pydict V) : list V := map snd d.

Definition len {A : Type} (l : list A) : Z := Z.of_nat (List.length l).

(** [d[k]] *)
Fixpoint getitem {V : Type} (d : pydict V) (k : pagename) : result V :=
  match d with
  | [] => Raise KeyError
  | (k', v) :: d' => if String.eqb k' k then Ok v else getitem d' k
  end.

(** [d[k] = v] *)
Fixpoint setitem {V : Type} (d : pydict V) (k : pagename) (v : V) : pydict V :=
  match d with
  | [] => [(k, v)]
  | (k', v') :: d' =>
      if String.eqb k' k then (k', v) :: d' else (k', v') :: setitem d' k v
  end.

(** [p in s] *)
Definition contains (s : pyset) (p : pagename) : bool := existsb (String.eqb p) s.

(** [set(l)] *)
Definition set_of_list (l : list pagename) : pyset := nodup string_dec l.

(** ** Arithmetic *)

Class Num (F : Type) : Type := {
  of_int : Z -> F;
  fadd : F -> F -> F;
  fsub : F -> F -> F;
  fmul : F -> F -> F;
  fdiv : F -> F -> F;
  fabs : F -> F;
  fle : F -> F -> bool;
  flt : F -> F -> bool
}.

#[export] Instance QNum : Num Q := {
  of_int := inject_Z;
  fadd := Qplus;
  fsub := Qminus;
  fmul := Qmult;
  fdiv := Qdiv;
  fabs := Qabs;
  fle := Qle_bool;
  flt := fun x y => negb (Qle_bool y x)
}.

(** Conversion of a Python [int] to binary64 (exact below 2^53, which covers
    every page count and sample count that fits in memory). *)
Definition float_of_Z (z : Z) : float :=
  match z with
  | Z0 => PrimFloat.zero
  | Zpos _ => PrimFloat.of_uint63 (Uint63.of_Z z)
  | Zneg p => PrimFloat.opp (PrimFloat.of_uint63 (Uint63.of_Z (Zpos p)))
  end.

#[export] Instance FloatNum : Num float := {
  of_int := float_of_Z;
  fadd := PrimFloat.add;
  fsub := PrimFloat.sub;
  fmul := PrimFloat.mul;
  fdiv := PrimFloat.div;
  fabs := PrimFloat.abs;
  fle := PrimFloat.leb;
  flt := PrimFloat.ltb
}.

Section Program.

Context {F : Type} {NumF : Num F}.

(** [x / k] for an integer divisor [k]: Python raises on a zero divisor. *)
Definition truediv (x : F) (k : Z) : result F :=
  if (k =? 0)%Z then Raise ZeroDivisionError else Ok (fdiv x (of_int k)).

(** The literal [0.001] of the convergence test. *)
Definition tolerance : F := fdiv (of_int 1) (of_int 1000).

(** ** [transition_model] *)

Definition transition_model (corpus : pydict pyset) (page : pagename)
    (damping_factor : F) : result (pydict F) :=
  links <- getitem corpus page ;;
  let num_pages := len corpus in
  let num_links := len links in
  if (num_links =? 0)%Z then
    for_in (keys corpus)
      (fun p acc => v <- truediv (of_int 1) num_pages ;; Ok (setitem acc p v))
      []
  else
    for_in (keys corpus)
      (fun p acc =>
         a <- (if contains links p then truediv damping_factor num_links
               else Ok (of_int 0)) ;;
         b <- truediv (fsub (of_int 1) damping_factor) num_pages ;;
         Ok (setitem acc p (fadd a b)))
      [].

(** ** [sample_pagerank] *)

(** The nested [transform_model]: cumulative ranges [[lo, hi]] per page.
    [transform_step] is the body of its loop, on the pair of [t_model] and
    [threshold]. *)
Definition transform_step (transition_model : pydict F) (page : pagename)
    (st : pydict (F * F) * F) : result (pydict (F * F) * F) :=
  let '(t_model, threshold) := st in
  v <- getitem transition_model page ;;
  v' <- getitem transition_model page ;;
  Ok (setitem t_model page (threshold, fadd threshold v), fadd threshold v').

Definition transform_model (transition_model : pydict F)
  : result (pydict (F * F)) :=
  let t_model : pydict (F * F) := [] in
  r <- for_in (keys transition_model) (transform_step transition_model)
         (t_model, of_int 0) ;;
  Ok (fst r).

(** The random source: the index [random.choice] draws, and the successive
    values of [random.random()]. *)
Record rng : Type := {
  choice_index : nat;
  random : nat -> F
}.

(** [random.choice(l)] *)
Definition choice (g : rng) (l : list pagename) : result pagename :=
  match l with
  | [] => Raise IndexError
  | p :: _ => Ok (nth (choice_index g mod List.length l) l p)
  end.

(** The inner [for p in model] loop with its [break]: the first page whose
    range holds [r], the current page when there is none. *)
Fixpoint draw_page (model : pydict (F * F)) (ps : list pagename) (r : F)
    (page : pagename) : result pagename :=
  match ps with
  | [] => Ok page
  | p :: ps' =>
      lo_hi <- getitem model p ;;
      if fle (fst lo_hi) r && flt r (snd lo_hi) then Ok p
      else draw_page model ps' r page
  end.

Record sampler : Type := {
  cur : pagename;
  sample : pydict Z;
  models : pydict (option (pydict (F * F)))
}.

(** Lines 88-89: fill the cache entry of [page] if it is still [None]. *)
Definition memoize (corpus : pydict pyset) (damping_factor : F)
    (models : pydict (option (pydict (F * F)))) (page : pagename)
  : result (pydict (option (pydict (F * F)))) :=
  cached <- getitem models page ;;
  match cached with
  | None =>
      tm <- transition_model corpus page damping_factor ;;
      t <- transform_model tm ;;
      Ok (setitem models page (Some t))
  | Some _ => Ok models
  end.

(** One pass through the body of [for i in range(n)]. *)
Definition sample_step (corpus : pydict pyset) (damping_factor : F) (g : rng)
    (i : nat) (st : sampler) : result sampler :=
  models' <- memoize corpus damping_factor (models st) (cur st) ;;
  model <- getitem models' (cur st) ;;
  match model with
  | None => Raise TypeError
  | Some model =>
      let r := random g i in
      page' <- draw_page model (keys model) r (cur st) ;;
      c <- getitem (sample st) page' ;;
      Ok {| cur := page';
            sample := setitem (sample st) page' (c + 1)%Z;
            models := models' |}
  end.

(** Lines 84-96: the visit counter [sample] when the loop is over. *)
Definition sample_counts (corpus : pydict pyset) (damping_factor : F)
    (n : Z) (g : rng) : result (pydict Z) :=
  page <- choice g (keys corpus) ;;
  let sample0 :=
    fold_left (fun acc p => setitem acc p (if String.eqb p page then 1 else 0)%Z)
      (keys corpus) [] in
  let models0 := fold_left (fun acc p => setitem acc p None) (keys corpus) [] in
  st <- for_in (seq 0 (Z.to_nat n)) (sample_step corpus damping_factor g)
          {| cur := page; sample := sample0; models := models0 |} ;;
  Ok (sample st).

Definition sample_pagerank (corpus : pydict pyset) (damping_factor : F)
    (n : Z) (g : rng) : result (pydict F) :=
  sample <- sample_counts corpus damping_factor n g ;;
  for_in sample
    (fun kv acc => v <- truediv (of_int (snd kv)) n ;;
                   Ok (setitem acc (fst kv) v))
    [].

(** ** [iterate_pagerank] *)

(** Line 110: the comprehension that rebinds [corpus]. *)
Definition normalize (corpus : pydict pyset) : pydict pyset :=
  let all_pages := set_of_list (keys corpus) in
  fold_left
    (fun acc kv =>
       setitem acc (fst kv) (if (len (snd kv) =? 0)%Z then all_pages else snd kv))
    corpus [].

(** Lines 116-119: the inner loop accumulating [lead_pages]. *)
Definition lead_pages (corpus : pydict pyset) (page_rank : pydict F)
    (page : pagename) : result F :=
  for_in (keys corpus)
    (fun p lead =>
       links <- getitem corpus p ;;
       if contains links page then
         r <- getitem page_rank p ;;
         links' <- getitem corpus p ;;
         q <- truediv r (len links') ;;
         Ok (fadd lead q)
       else Ok lead)
    (of_int 0).

(** Lines 114-120: one round, building [new_pr] from [page_rank]. *)
Definition round (corpus : pydict pyset) (damping_factor : F) (num_pages : Z)
    (page_rank : pydict F) : result (pydict F) :=
  for_in (keys page_rank)
    (fun page new_pr =>
       lead <- lead_pages corpus page_rank page ;;
       base <- truediv (fsub (of_int 1) damping_factor) num_pages ;;
       Ok (setitem new_pr page (fadd base (fmul damping_factor lead))))
    [].

(** [max(l)] *)
Definition pymax (l : list F) : result F :=
  match l with
  | [] => Raise ValueError
  | x :: l' => Ok (fold_left (fun m y => if flt m y then y else m) l' x)
  end.

(** Line 121: the list [[abs(page_rank[p] - new_pr[p]) for p in corpus]] and
    its maximum. *)
Definition delta_list (corpus : pydict pyset) (page_rank new_pr : pydict F)
  : result (list F) :=
  for_in (keys corpus)
    (fun p acc =>
       a <- getitem page_rank p ;;
       b <- getitem new_pr p ;;
       Ok (acc ++ [fabs (fsub a b)]))
    [].

Definition max_delta (corpus : pydict pyset) (page_rank new_pr : pydict F)
  : result F :=
  ds <- delta_list corpus page_rank new_pr ;;
  pymax ds.

(** The [while True] loop; [None] when the fuel runs out before the [break]. *)
Fixpoint iterate_loop (fuel : nat) (corpus : pydict pyset) (damping_factor : F)
    (num_pages : Z) (page_rank : pydict F) : option (result (pydict F)) :=
  match fuel with
  | O => None
  | S fuel' =>
      match round corpus damping_factor num_pages page_rank with
      | Raise e => Some (Raise e)
      | Ok new_pr =>
          match max_delta corpus page_rank new_pr with
          | Raise e => Some (Raise e)
          | Ok m =>
              if fle m tolerance then Some (Ok new_pr)
              else iterate_loop fuel' corpus damping_factor num_pages new_pr
          end
      end
  end.

(** Line 112: the initial ranks. *)
Definition initial_rank (corpus : pydict pyset) (num_pages : Z)
  : result (pydict F) :=
  for_in (keys corpus)
    (fun p acc => v <- truediv (of_int 1) num_pages ;; Ok (setitem acc p v))
    [].

Definition iterate_pagerank (fuel : nat) (corpus : pydict pyset)
    (damping_factor : F) : option (result (pydict F)) :=
  let corpus := normalize corpus in
  let num_pages := len corpus in
  match initial_rank corpus num_pages with
  | Raise e => Some (Raise e)
  | Ok page_rank => iterate_loop fuel corpus damping_factor num_pages page_rank
  end.

(** The successive values of the maximum of line 121, one per round that the
    loop runs (the loop of [iterate_loop], recording instead of returning). *)
Fixpoint loop_deltas (fuel : nat) (corpus : pydict pyset) (damping_factor : F)
    (num_pages : Z) (page_rank : pydict F) : list F :=
  match fuel with
  | O => []
  | S fuel' =>
      match round corpus damping_factor num_pages page_rank with
      | Raise _ => []
      | Ok new_pr =>
          match max_delta corpus page_rank new_pr with
          | Raise _ => []
          | Ok m =>
              m :: (if fle m tolerance then []
                    else loop_deltas fuel' corpus damping_factor num_pages new_pr)
          end
      end
  end.

Definition iterate_deltas (fuel : nat) (corpus : pydict pyset)
    (damping_factor : F) : list F :=
  let corpus := normalize corpus in
  let num_pages := len corpus in
  match initial_rank corpus num_pages with
  | Raise _ => []
  | Ok page_rank => loop_deltas fuel corpus damping_factor num_pages page_rank
  end.

(** The rank mapping held after [k] rounds (the [break] left aside). *)
Fixpoint page_rank_after (k : nat) (corpus : pydict pyset) (damping_factor : F)
  : result (pydict F) :=
  match k with
  | O => initial_rank (normalize corpus) (len (normalize corpus))
  | S k' =>
      pr <- page_rank_after k' corpus damping_factor ;;
      round (normalize corpus) damping_factor (len (normalize corpus)) pr
  end.

End Program.

(** ** [crawl] *)

(** [s.endswith(suffix)] *)
Definition endswith (s suffix : string) : bool :=
  (String.length suffix <=? String.length s)%nat
  && String.eqb
       (substring (String.length s - String.length suffix)
          (String.length suffix) s)
       suffix.

(** [s - {x}] *)
Definition set_remove (s : pyset) (x : pagename) : pyset :=
  filter (fun y => negb (String.eqb y x)) s.

(** What [os.listdir(directory)] and [open(...).read()] give: the names of
    the directory in the order they are listed, each with the text of its
    file.  A listed [.html] name that cannot be opened or decoded makes the
    interpreter raise at line 36; such directories are not values of this
    type. *)
Definition directory := list (string * string).

Section Crawl.

(** The search of line 38, [re.findall] with the pattern for an [<a ...>] tag
    whose [href] attribute is written in double quotes: the targets found in
    a text, in order.  The regular-expression engine is not part of the
    program; [crawl] is written over whatever it returns. *)
Variable findall_href : string -> list string.

(** Lines 33-39: one pass through the first loop. *)
Definition crawl_read (pages : pydict pyset) (entry : string * string)
  : pydict pyset :=
  let filename := fst entry in
  if negb (endswith filename ".html") then pages
  else
    let contents := snd entry in
    let links := findall_href contents in
    setitem pages filename (set_remove (set_of_list links) filename).

(** Lines 42-46: one pass through the second loop. *)
Definition crawl_restrict (filename : pagename) (pages : pydict pyset)
  : result (pydict pyset) :=
  links <- getitem pages filename ;;
  Ok (setitem pages filename
        (set_of_list (filter (fun link => contains (keys pages) link) links))).

Definition crawl (dir : directory) : result (pydict pyset) :=
  let pages := fold_left crawl_read dir [] in
  for_in (keys pages) crawl_restrict pages.

End Crawl.

(** ** The program over a store of objects

    To say that a call leaves the caller's graph alone, dictionaries, sets and
    lists are objects in a store, a variable holds a reference, and
    [d[k] = v] writes into the object the reference names.  The three
    functions are written again, statement by statement, at this level. *)

Module Store.

Section Program.

Context {F : Type} {NumF : Num F}.

Inductive value : Type :=
| VNone
| VInt (z : Z)
| VFloat (x : F)
| VRef (a : nat).

Inductive object : Type :=
| ODict (d : pydict value)
| OSet (s : pyset)
| OList (l : list value).

Definition store := list object.

(** A computation reads and writes the store, and returns or raises. *)
Definition M (A : Type) : Type := store -> result (A * store).

Definition ret {A : Type} (a : A) : M A := fun h => Ok (a, h).

Definition bindM {A B : Type} (m : M A) (k : A -> M B) : M B :=
  fun h =>
    match m h with
    | Ok (a, h') => k a h'
    | Raise e => Raise e
    end.

Definition lift {A : Type} (r : result A) : M A :=
  fun h =>
    match r with
    | Ok a => Ok (a, h)
    | Raise e => Raise e
    end.

(** A new object, at the next free address. *)
Definition new (o : object) : M nat :=
  fun h => Ok (List.length h, h ++ [o]).

Definition load (a : nat) : M object :=
  fun h =>
    match nth_error h a with
    | Some o => Ok (o, h)
    | None => Raise TypeError
    end.

Fixpoint update (h : store) (a : nat) (o : object) : store :=
  match h, a with
  | [], _ => []
  | _ :: h', O => o :: h'
  | o' :: h', S a' => o' :: update h' a' o
  end.

Definition write (a : nat) (o : object) : M unit :=
  fun h => Ok (tt, update h a o).

Notation "x <~ c ;; k" := (bindM c (fun x => k))
  (at level 61, c at next level, right associativity).

(** [for x in xs: s = body x s] *)
Fixpoint for_M {A S : Type} (xs : list A) (body : A -> S -> M S) (s : S)
  : M S :=
  match xs with
  | [] => ret s
  | x :: xs' => s' <~ body x s ;; for_M xs' body s'
  end.

Definition load_dict (a : nat) : M (pydict value) :=
  o <~ load a ;;
  match o with
  | ODict d => ret d
  | _ => lift (Raise TypeError)
  end.

(** [d[k]] *)
Definition dict_get (a : nat) (k : pagename) : M value :=
  d <~ load_dict a ;; lift (getitem d k).

(** [d[k] = v] *)
Definition dict_set (a : nat) (k : pagename) (v : value) : M unit :=
  d <~ load_dict a ;; write a (ODict (setitem d k v)).

(** [for k in d] and [d.items()] *)
Definition iter_keys (a : nat) : M (list pagename) :=
  d <~ load_dict a ;; ret (keys d).

Definition iter_items (a : nat) : M (list (pagename * value)) := load_dict a.

(** [len(x)] *)
Definition obj_len (a : nat) : M Z :=
  o <~ load a ;;
  ret (match o with
       | ODict d => len d
       | OSet s => len s
       | OList l => len l
       end).

(** [p in s] *)
Definition obj_contains (a : nat) (p : pagename) : M bool :=
  o <~ load a ;;
  match o with
  | OSet s => ret (contains s p)
  | ODict d => ret (contains (keys d) p)
  | OList _ => ret false
  end.

(** [l[i]] *)
Definition list_get (a : nat) (i : nat) : M value :=
  o <~ load a ;;
  match o with
  | OList l =>
      match nth_error l i with
      | Some v => ret v
      | None => lift (Raise IndexError)
      end
  | _ => lift (Raise TypeError)
  end.

Definition to_ref (v : value) : M nat :=
  match v with
  | VRef a => ret a
  | _ => lift (Raise TypeError)
  end.

Definition to_float (v : value) : M F :=
  match v with
  | VFloat x => ret x
  | VInt z => ret (of_int z)
  | _ => lift (Raise TypeError)
  end.

Definition to_int (v : value) : M Z :=
  match v with
  | VInt z => ret z
  | _ => lift (Raise TypeError)
  end.

Definition transition_model (corpus : nat) (page : pagename)
    (damping_factor : F) : M nat :=
  links <~ (v <~ dict_get corpus page ;; to_ref v) ;;
  num_pages <~ obj_len corpus ;;
  num_links <~ obj_len links ;;
  if (num_links =? 0)%Z then
    d <~ new (ODict []) ;;
    ps <~ iter_keys corpus ;;
    _ <~ for_M ps
           (fun p _ =>
              v <~ lift (truediv (of_int 1) num_pages) ;;
              dict_set d p (VFloat v))
           tt ;;
    ret d
  else
    d <~ new (ODict []) ;;
    ps <~ iter_keys corpus ;;
    _ <~ for_M ps
           (fun p _ =>
              b <~ obj_contains links p ;;
              a <~ (if b then lift (truediv damping_factor num_links)
                    else ret (of_int 0)) ;;
              c <~ lift (truediv (fsub (of_int 1) damping_factor) num_pages) ;;
              dict_set d p (VFloat (fadd a c)))
           tt ;;
    ret d.

Definition transform_model (transition_model : nat) : M nat :=
  t_model <~ new (ODict []) ;;
  ps <~ iter_keys transition_model ;;
  _ <~ for_M ps
         (fun page threshold =>
            v <~ (x <~ dict_get transition_model page ;; to_float x) ;;
            pair <~ new (OList [VFloat threshold; VFloat (fadd threshold v)]) ;;
            _ <~ dict_set t_model page (VRef pair) ;;
            v' <~ (x <~ dict_get transition_model page ;; to_float x) ;;
            ret (fadd threshold v'))
         (of_int 0) ;;
  ret t_model.

Fixpoint draw_page (model : nat) (ps : list pagename) (r : F)
    (page : pagename) : M pagename :=
  match ps with
  | [] => ret page
  | p :: ps' =>
      lo <~ (v <~ dict_get model p ;; pair <~ to_ref v ;;
             x <~ list_get pair 0 ;; to_float x) ;;
      if fle lo r then
        hi <~ (v <~ dict_get model p ;; pair <~ to_ref v ;;
               x <~ list_get pair 1 ;; to_float x) ;;
        if flt r hi then ret p else draw_page model ps' r page
      else draw_page model ps' r page
  end.

Definition sample_step (corpus : nat) (damping_factor : F) (g : rng)
    (sample models : nat) (i : nat) (page : pagename) : M pagename :=
  cached <~ dict_get models page ;;
  _ <~ match cached with
       | VNone =>
           tm <~ transition_model corpus page damping_factor ;;
           t <~ transform_model tm ;;
           dict_set models page (VRef t)
       | _ => ret tt
       end ;;
  model <~ (v <~ dict_get models page ;; to_ref v) ;;
  let r := random g i in
  ps <~ iter_keys model ;;
  page' <~ draw_page model ps r page ;;
  c <~ (v <~ dict_get sample page' ;; to_int v) ;;
  _ <~ dict_set sample page' (VInt (c + 1)) ;;
  ret page'.

Definition sample_pagerank (corpus : nat) (damping_factor : F) (n : Z)
    (g : rng) : M nat :=
  ks <~ iter_keys corpus ;;
  page <~ lift (choice g ks) ;;
  sample <~ new (ODict []) ;;
  ps <~ iter_keys corpus ;;
  _ <~ for_M ps
         (fun p _ =>
            dict_set sample p (VInt (if String.eqb p page then 1 else 0)))
         tt ;;
  models <~ new (ODict []) ;;
  ps' <~ iter_keys corpus ;;
  _ <~ for_M ps' (fun p _ => dict_set models p VNone) tt ;;
  _ <~ for_M (seq 0 (Z.to_nat n))
         (sample_step corpus damping_factor g sample models) page ;;
  result <~ new (ODict []) ;;
  items <~ iter_items sample ;;
  _ <~ for_M items
         (fun kv _ =>
            c <~ to_int (snd kv) ;;
            v <~ lift (truediv (of_int c) n) ;;
            dict_set result (fst kv) (VFloat v))
         tt ;;
  ret result.

Definition round (corpus : nat) (damping_factor : F) (num_pages : Z)
    (page_rank : nat) : M nat :=
  new_pr <~ new (ODict []) ;;
  pages <~ iter_keys page_rank ;;
  _ <~ for_M pages
         (fun page _ =>
            ps <~ iter_keys corpus ;;
            lead <~ for_M ps
                      (fun p lead =>
                         links <~ (v <~ dict_get corpus p ;; to_ref v) ;;
                         b <~ obj_contains links page ;;
                         if b then
                           r <~ (v <~ dict_get page_rank p ;; to_float v) ;;
                           links' <~ (v <~ dict_get corpus p ;; to_ref v) ;;
                           l <~ obj_len links' ;;
                           q <~ lift (truediv r l) ;;
                           ret (fadd lead q)
                         else ret lead)
                      (of_int 0) ;;
            base <~ lift (truediv (fsub (of_int 1) damping_factor) num_pages) ;;
            dict_set new_pr page (VFloat (fadd base (fmul damping_factor lead))))
         tt ;;
  ret new_pr.

Definition max_delta (corpus page_rank new_pr : nat) : M F :=
  ps <~ iter_keys corpus ;;
  ds <~ for_M ps
          (fun p acc =>
             a <~ (v <~ dict_get page_rank p ;; to_float v) ;;
             b <~ (v <~ dict_get new_pr p ;; to_float v) ;;
             ret (acc ++ [fabs (fsub a b)]))
          [] ;;
  lift (pymax ds).

(** The [while True] loop; it returns [None] when the fuel runs out. *)
Fixpoint iterate_loop (fuel : nat) (corpus : nat) (damping_factor : F)
    (num_pages : Z) (page_rank : nat) : M (option nat) :=
  match fuel with
  | O => ret None
  | S fuel' =>
      new_pr <~ round corpus damping_factor num_pages page_rank ;;
      m <~ max_delta corpus page_rank new_pr ;;
      if fle m tolerance then ret (Some new_pr)
      else iterate_loop fuel' corpus damping_factor num_pages new_pr
  end.

Definition iterate_pagerank (fuel : nat) (corpus : nat) (damping_factor : F)
  : M (option nat) :=
  ks <~ iter_keys corpus ;;
  all_pages <~ new (OSet (set_of_list ks)) ;;
  normalized <~ new (ODict []) ;;
  items <~ iter_items corpus ;;
  _ <~ for_M items
         (fun kv _ =>
            v <~ to_ref (snd kv) ;;
            l <~ obj_len v ;;
            dict_set normalized (fst kv)
              (if (l =? 0)%Z then VRef all_pages else snd kv))
         tt ;;
  num_pages <~ obj_len normalized ;;
  page_rank <~ new (ODict []) ;;
  ps <~ iter_keys normalized ;;
  _ <~ for_M ps
         (fun p _ =>
            v <~ lift (truediv (of_int 1) num_pages) ;;
            dict_set page_rank p (VFloat v))
         tt ;;
  iterate_loop fuel normalized damping_factor num_pages page_rank.

(** A call of one of the three functions on the graph at address [corpus]. *)
Inductive call : Type :=
| CallTransitionModel (page : pagename) (damping_factor : F)
| CallSamplePagerank (damping_factor : F) (n : Z) (g : @rng F)
| CallIteratePagerank (fuel : nat) (damping_factor : F).

Definition run (c : call) (corpus : nat) : M (option nat) :=
  match c with
  | CallTransitionModel page d =>
      r <~ transition_model corpus page d ;; ret (Some r)
  | CallSamplePagerank d n g =>
      r <~ sample_pagerank corpus d n g ;; ret (Some r)
  | CallIteratePagerank fuel d => iterate_pagerank fuel corpus d
  end.

(** The graph a caller reads at address [corpus]: the dictionary there, with
    the set each of its values refers to. *)
Definition set_at (h : store) (v : value) : option pyset :=
  match v with
  | VRef a =>
      match nth_error h a with
      | Some (OSet s) => Some s
      | _ => None
      end
  | _ => None
  end.

Fixpoint sets_at (h : store) (d : pydict value) : option (pydict pyset) :=
  match d with
  | [] => Some []
  | (k, v) :: d' =>
      match set_at h v, sets_at h d' with
      | Some s, Some g => Some ((k, s) :: g)
      | _, _ => None
      end
  end.

Definition graph_at (h : store) (corpus : nat) : option (pydict pyset) :=
  match nth_error h corpus with
  | Some (ODict d) => sets_at h d
  | _ => None
  end.

(** The dictionary of numbers at an address (a returned distribution). *)
Definition floats_at (h : store) (a : nat) : option (pydict F) :=
  match nth_error h a with
  | Some (ODict d) =>
      Some (map (fun kv => (fst kv, match snd kv with
                                    | VFloat x => x
                                    | VInt z => of_int z
                                    | _ => of_int 0
                                    end)) d)
  | _ => None
  end.

(** A computation that leaves the first [n] objects of the store alone. *)
Definition frame (n : nat) {A : Type} (m : M A) : Prop :=
  forall h a h', (n <= List.length h)%nat -> m h = Ok (a, h') ->
    firstn n h' = firstn n h /\ (List.length h <= List.length h')%nat.

End Program.

End Store.

(** ** Well-formed inputs *)

(** A list of page names without repetition (what a [set] or the keys of a
    [dict] always are). *)
Fixpoint distinct (l : list pagename) : bool :=
  match l with
  | [] => true
  | x :: l' => negb (contains l' x) && distinct l'
  end.

(** A value a Python [dict] of [set]s can take: no key twice, no element
    twice in a set. *)
Definition well_formed (corpus : pydict pyset) : bool :=
  distinct (keys corpus) && forallb (fun kv => distinct (snd kv)) corpus.

(** The graph invariant of the crawler: every link is a key, and no page
    links to itself. *)
Definition graph_invariant (corpus : pydict pyset) : bool :=
  forallb
    (fun kv =>
       forallb (fun q => contains (keys corpus) q && negb (String.eqb q (fst kv)))
         (snd kv))
    corpus.

(** ** The vocabulary of the statements *)

(** The sum of a list of rationals, and of a list of integers. *)
Definition Qsum (l : list Q) : Q := fold_right Qplus 0 l.

Definition Zsum (l : list Z) : Z := fold_right Z.add 0%Z l.

(** The graph [iterate_pagerank] works on: a page without outlinks is given
    every page as outlink. *)
Definition normalized (corpus : pydict pyset) : pydict pyset :=
  map (fun kv => (fst kv, if (len (snd kv) =? 0)%Z then keys corpus else snd kv))
    corpus.

(** A graph on which a round cannot fail: a dictionary of non-empty sets. *)
Definition proper_graph (nc : pydict pyset) : Prop :=
  NoDup (keys nc) /\
  forall p links, In (p, links) nc -> links <> [] /\ NoDup links.

(** Every link of the graph is one of its pages. *)
Definition closed_graph (nc : pydict pyset) : Prop :=
  forall p links q, In (p, links) nc -> In q links -> In q (keys nc).

Section Derived.

Context {F : Type} {NumF : Num F}.

(** The probability [transition_model] gives page [q], from a page whose
    outlinks are [links]. *)
Definition transition_value (corpus : pydict pyset) (links : pyset) (d : F)
    (q : pagename) : F :=
  if (len links =? 0)%Z then fdiv (of_int 1) (of_int (len corpus))
  else fadd (if contains links q then fdiv d (of_int (len links)) else of_int 0)
            (fdiv (fsub (of_int 1) d) (of_int (len corpus))).

(** [page_rank[p]], read as 0 where the key is missing. *)
Definition rank_of (page_rank : pydict F) (p : pagename) : F :=
  match getitem page_rank p with
  | Ok v => v
  | Raise _ => of_int 0
  end.

(** The value [lead_pages] holds after the inner loop. *)
Definition lead_value (nc : pydict pyset) (page_rank : pydict F)
    (page : pagename) : F :=
  fold_left
    (fun lead kv =>
       if contains (snd kv) page
       then fadd lead (fdiv (rank_of page_rank (fst kv)) (of_int (len (snd kv))))
       else lead)
    nc (of_int 0).

(** The mapping [new_pr] holds after the round. *)
Definition next_rank (nc : pydict pyset) (d : F) (page_rank : pydict F)
  : pydict F :=
  map (fun page =>
         (page, fadd (fdiv (fsub (of_int 1) d) (of_int (len nc)))
                     (fmul d (lead_value nc page_rank page))))
    (keys page_rank).

(** The mapping [page_rank] holds before the first round. *)
Definition first_rank (nc : pydict pyset) : pydict F :=
  map (fun p => (p, fdiv (of_int 1) (of_int (len nc)))) (keys nc).

(** The list of absolute differences of line 121. *)
Definition deltas (nc : pydict pyset) (a b : pydict F) : list F :=
  map (fun p => fabs (fsub (rank_of a p) (rank_of b p))) (keys nc).

(** The ranks after [k] rounds, as a plain function. *)
Fixpoint rank_iter (k : nat) (nc : pydict pyset) (d : F) : pydict F :=
  match k with
  | O => first_rank nc
  | S k' => next_rank nc d (rank_iter k' nc d)
  end.

(** The test of line 121 in round [k+1]. *)
Definition converged (k : nat) (nc : pydict pyset) (d : F) : bool :=
  match pymax (deltas nc (rank_iter k nc d) (rank_iter (S k) nc d)) with
  | Ok m => fle m tolerance
  | Raise _ => false
  end.

(** The sum of the values of a mapping, added in order (as [sum(d.values())]
    would), and the test that it is within [1e-9] of 1. *)
Definition fsum (l : list F) : F := fold_left fadd l (of_int 0).

Definition sums_to_one (r : result (pydict F)) : bool :=
  match r with
  | Ok pr =>
      fle (fabs (fsub (fsum (values pr)) (of_int 1)))
          (fdiv (of_int 1) (of_int 1000000000))
  | Raise _ => false
  end.

(** What holds of the sampler's state after [i] passes through the loop. *)
Definition sampler_inv (corpus : pydict pyset) (st : @sampler F) (i : Z)
  : Prop :=
  In (cur st) (keys corpus) /\
  keys (sample st) = keys corpus /\
  Zsum (values (sample st)) = (1 + i)%Z /\
  keys (models st) = keys corpus /\
  forall p t, getitem (models st) p = Ok (Some t) -> keys t = keys corpus.

End Derived.

(** No element of the list is larger than the one before it. *)
Fixpoint non_increasing {F : Type} {NumF : Num F} (l : list F) : bool :=
  match l with
  | [] => true
  | x :: l' =>
      match l' with
      | [] => true
      | y :: _ => fle y x && non_increasing l'
      end
  end.

(** The recurrence as the specification writes it:
    [new_rank(p) = (1-d)/N + d * sum of rank(q)/outdegree(q)] over the pages
    [q] whose outlink set in [nc] contains [p]; it reads the previous ranks
    [rank] only. *)
Definition new_rank (nc : pydict pyset) (d : Q) (rank : pagename -> Q)
    (p : pagename) : Q :=
  (1 - d) / inject_Z (len nc)
  + d * Qsum (map (fun q => rank (fst q) / inject_Z (len (snd q)))
                (filter (fun q => contains (snd q) p) nc)).

(** The total change of round [k+1]: the sum over the pages of the absolute
    difference between the ranks before and after it. *)
Definition total_delta (nc : pydict pyset) (d : Q) (k : nat) : Q :=
  Qsum (deltas nc (rank_iter k nc d) (rank_iter (S k) nc d)).

(** The value of a call that returned, and of a loop that finished. *)
Definition returned {A : Type} (r : result A) : option A :=
  match r with
  | Ok a => Some a
  | Raise _ => None
  end.

Definition finished {A : Type} (r : option (result A)) : option A :=
  match r with
  | Some (Ok a) => Some a
  | _ => None
  end.

(** ** Concrete inputs *)

(** Three pages: [A -> B], [B -> A, C], [C -> A]. *)
Definition g3 : pydict pyset :=
  [("A", ["B"]); ("B", ["A"; "C"]); ("C", ["A"])]%string.

(** Seven pages: four leaves link to two hubs (two each), both hubs link to
    [T], and [T] has no outlinks. *)
Definition tree7 : pydict pyset :=
  [("T", []); ("M1", ["T"]); ("M2", ["T"]);
   ("L1", ["M1"]); ("L2", ["M1"]); ("L3", ["M2"]); ("L4", ["M2"])]%string.

(** A random source: [random.choice] draws index 1, and the [i]-th call of
    [random.random()] returns [(i mod 7)/7]. *)
Definition rng_sevenths : rng :=
  {| choice_index := 1;
     random := fun i => inject_Z (Z.of_nat (i mod 7)) / 7 |}.

(** A random source in binary64: index 1, then always [0.5]. *)
Definition rng_half : @rng float :=
  {| choice_index := 1; random := fun _ => 0x1p-1%float |}.

(** The graph [g3] laid out in a store: its three sets, then its dictionary
    at address 3. *)
Definition store3 {F : Type} : @Store.store F :=
  [Store.OSet ["B"]; Store.OSet ["A"; "C"]; Store.OSet ["A"];
   Store.ODict [("A", Store.VRef 0); ("B", Store.VRef 1); ("C", Store.VRef 2)]
  ]%string.

(** The result of a call on [store3], read back as a dictionary of numbers. *)
Definition result_on_store3 {F : Type} {NumF : Num F} (c : Store.call)
  : option (pydict F) :=
  match Store.run c 3 store3 with
  | Ok (Some r, h) => Store.floats_at h r
  | _ => None
  end.

(** ** The vocabulary of the further properties *)

Section CrawlVocabulary.

Variable findall_href : string -> list string.

(** What the first loop stores for a file. *)
Definition links_read (entry : string * string) : pyset :=
  set_remove (set_of_list (findall_href (snd entry))) (fst entry).

(** What holds of [pages] during the first loop. *)
Definition read_inv (dir : directory) (pages : pydict pyset) : Prop :=
  NoDup (keys pages) /\
  forall k v, In (k, v) pages ->
    exists entry, In entry dir /\ fst entry = k /\
                  endswith k ".html" = true /\ v = links_read entry.

(** The test of line 34, on a directory entry. *)
Definition is_html (entry : string * string) : bool :=
  endswith (fst entry) ".html".

End CrawlVocabulary.

Section SamplerVocabulary.

Context {F : Type} {NumF : Num F}.

(** The page the sampler moves to from [page] on the draw [r], computed
    afresh: lines 89-95 without the cache. *)
Definition next_page (corpus : pydict pyset) (damping_factor : F) (r : F)
    (page : pagename) : result pagename :=
  tm <- transition_model corpus page damping_factor ;;
  model <- transform_model tm ;;
  draw_page model (keys model) r page.

(** One pass through the sampling loop, and the whole count, when nothing is
    cached; for comparison with [sample_step] and [sample_counts]. *)
Definition sample_step_uncached (corpus : pydict pyset) (damping_factor : F)
    (g : rng) (i : nat) (st : pagename * pydict Z)
  : result (pagename * pydict Z) :=
  page' <- next_page corpus damping_factor (random g i) (fst st) ;;
  c <- getitem (snd st) page' ;;
  Ok (page', setitem (snd st) page' (c + 1)%Z).

Definition sample_counts_uncached (corpus : pydict pyset) (damping_factor : F)
    (n : Z) (g : rng) : result (pydict Z) :=
  page <- choice g (keys corpus) ;;
  let sample0 :=
    fold_left (fun acc p => setitem acc p (if String.eqb p page then 1 else 0)%Z)
      (keys corpus) [] in
  st <- for_in (seq 0 (Z.to_nat n))
          (sample_step_uncached corpus damping_factor g) (page, sample0) ;;
  Ok (snd st).

(** Every model in the cache is the one the transition model of its page
    gives. *)
Definition cache_ok (corpus : pydict pyset) (damping_factor : F)
    (models : pydict (option (pydict (F * F)))) : Prop :=
  forall p t, getitem models p = Ok (Some t) ->
    (tm <- transition_model corpus p damping_factor ;; transform_model tm)
    = Ok t.

(** The cumulative ranges [transform_model] builds, from the threshold [th]
    on, and the page whose range holds [r] (the first one, else [page]). *)
Fixpoint ranges (tm : pydict F) (th : F) : pydict (F * F) :=
  match tm with
  | [] => []
  | (p, v) :: tm' => (p, (th, fadd th v)) :: ranges tm' (fadd th v)
  end.

Fixpoint select (model : pydict (F * F)) (r : F) (page : pagename)
  : pagename :=
  match model with
  | [] => page
  | (p, lo_hi) :: model' =>
      if fle (fst lo_hi) r && flt r (snd lo_hi) then p
      else select model' r page
  end.

End SamplerVocabulary.




(** ** Concrete inputs of the further properties *)

(** A directory of four files, three of them pages; the texts stand for the
    files' contents. *)
Definition site : directory :=
  [("1.html", "text of 1"); ("notes.txt", "text of the notes");
   ("2.html", "text of 2"); ("3.html", "text of 3")]%string.

(** What the search finds in each of these texts: page 1 links to page 2
    twice, to itself, to a page that does not exist and to the notes; page 2
    links to pages 1 and 3; page 3 links to page 2; the notes link to
    page 1. *)
Definition site_hrefs (contents : string) : list string :=
  (if String.eqb contents "text of 1"
   then ["2.html"; "1.html"; "2.html"; "4.html"; "notes.txt"]
   else if String.eqb contents "text of 2" then ["1.html"; "3.html"]
   else if String.eqb contents "text of 3" then ["2.html"]
   else ["1.html"])%string.

(** A directory without pages. *)
Definition no_pages : directory :=
  [("notes.txt", "text of the notes"); ("style.css", "")]%string.



Definition isolated10 : pydict pyset :=
  map (fun k => (k, []))
    ["0"; "1"; "2"; "3"; "4"; "5"; "6"; "7"; "8"; "9"]%string.

(** Two pages; [A] links to [B] and to [Z], which is no page. *)
Definition stray2 : pydict pyset := [("A", ["B"; "Z"]); ("B", ["A"])]%string.

(** A distribution over three pages. *)
Definition halves : pydict Q := [("A", 1 # 2); ("B", 1 # 4); ("C", 1 # 4)]%string.

(** * Lemmas and theorems *)

(** ** Dictionaries and loops: structural lemmas *)

Lemma contains_In (s : pyset) (p : pagename) : contains s p = true <-> In p s.
Proof.
  unfold contains. rewrite existsb_exists. split.
  - intros [x [Hx Heq]]. apply String.eqb_eq in Heq. now subst.
  - intros H. exists p. split; [assumption | apply String.eqb_refl].
Qed.

Lemma contains_not_In (s : pyset) (p : pagename) :
  contains s p = false <-> ~ In p s.
Proof.
  rewrite <- contains_In. destruct (contains s p); split; intros; congruence.
Qed.

Lemma distinct_NoDup (l : list pagename) : distinct l = true <-> NoDup l.
Proof.
  induction l as [|x l IH]; simpl.
  - split; [constructor | reflexivity].
  - rewrite andb_true_iff, negb_true_iff, contains_not_In, IH. split.
    + intros [H1 H2]. now constructor.
    + intros H. inversion H; subst. now split.
Qed.

Lemma well_formed_keys (corpus : pydict pyset) :
  well_formed corpus = true -> NoDup (keys corpus).
Proof.
  unfold well_formed. rewrite andb_true_iff. intros [H _].
  now apply distinct_NoDup.
Qed.

Lemma well_formed_links (corpus : pydict pyset) (p : pagename) (links : pyset) :
  well_formed corpus = true -> In (p, links) corpus -> NoDup links.
Proof.
  unfold well_formed. rewrite andb_true_iff. intros [_ H] Hin.
  rewrite forallb_forall in H. apply distinct_NoDup. exact (H _ Hin).
Qed.

Lemma graph_invariant_links (corpus : pydict pyset) (p q : pagename)
    (links : pyset) :
  graph_invariant corpus = true -> In (p, links) corpus -> In q links ->
  In q (keys corpus) /\ q <> p.
Proof.
  unfold graph_invariant. rewrite forallb_forall. intros H Hin Hq.
  specialize (H _ Hin). rewrite forallb_forall in H. specialize (H _ Hq).
  apply andb_true_iff in H. destruct H as [H1 H2]. split.
  - now apply contains_In.
  - apply negb_true_iff in H2. now apply String.eqb_neq in H2.
Qed.

Section Dict.

Context {V : Type}.

Lemma getitem_In (d : pydict V) (k : pagename) (v : V) :
  NoDup (keys d) -> In (k, v) d -> getitem d k = Ok v.
Proof.
  induction d as [|[k' v'] d IH]; simpl; intros Hnd Hin; [contradiction|].
  inversion Hnd as [|? ? Hnotin Hnd']; subst.
  destruct Hin as [Heq | Hin].
  - inversion Heq; subst. now rewrite String.eqb_refl.
  - destruct (String.eqb_spec k' k) as [->|Hne].
    + exfalso. apply Hnotin. change k with (fst (k, v)). now apply in_map.
    + now apply IH.
Qed.

Lemma getitem_Ok_In (d : pydict V) (k : pagename) (v : V) :
  getitem d k = Ok v -> In (k, v) d.
Proof.
  induction d as [|[k' v'] d IH]; simpl; [discriminate|].
  destruct (String.eqb_spec k' k) as [->|Hne].
  - intros H. inversion H. now left.
  - intros H. right. now apply IH.
Qed.

Lemma getitem_keys (d : pydict V) (k : pagename) :
  In k (keys d) -> exists v, getitem d k = Ok v.
Proof.
  induction d as [|[k' v'] d IH]; simpl; [contradiction|].
  intros Hin. destruct (String.eqb_spec k' k) as [->|Hne].
  - now exists v'.
  - destruct Hin as [Heq|Hin]; [contradiction|]. now apply IH.
Qed.

Lemma getitem_not_keys (d : pydict V) (k : pagename) :
  ~ In k (keys d) -> getitem d k = Raise KeyError.
Proof.
  induction d as [|[k' v'] d IH]; simpl; [reflexivity|].
  intros Hnotin. destruct (String.eqb_spec k' k) as [->|Hne].
  - exfalso. apply Hnotin. now left.
  - apply IH. intros H. apply Hnotin. now right.
Qed.

Lemma setitem_fresh (d : pydict V) (k : pagename) (v : V) :
  ~ In k (keys d) -> setitem d k v = d ++ [(k, v)].
Proof.
  induction d as [|[k' v'] d IH]; simpl; [reflexivity|].
  intros Hnotin. destruct (String.eqb_spec k' k) as [->|Hne].
  - exfalso. apply Hnotin. now left.
  - rewrite IH; [reflexivity|]. intros H. apply Hnotin. now right.
Qed.

Lemma keys_setitem_In (d : pydict V) (k : pagename) (v : V) :
  In k (keys d) -> keys (setitem d k v) = keys d.
Proof.
  induction d as [|[k' v'] d IH]; simpl; [contradiction|].
  intros Hin. destruct (String.eqb_spec k' k) as [->|Hne]; simpl.
  - reflexivity.
  - destruct Hin as [Heq|Hin]; [contradiction|]. now rewrite IH.
Qed.

Lemma keys_app (d1 d2 : pydict V) : keys (d1 ++ d2) = keys d1 ++ keys d2.
Proof. apply map_app. Qed.

Lemma getitem_map (f : pagename -> V) (ks : list pagename) (k : pagename) :
  In k ks -> getitem (map (fun p => (p, f p)) ks) k = Ok (f k).
Proof.
  induction ks as [|k' ks IH]; simpl; [contradiction|].
  intros Hin. destruct (String.eqb_spec k' k) as [->|Hne]; [reflexivity|].
  destruct Hin as [Heq|Hin]; [contradiction|]. now apply IH.
Qed.

Lemma keys_map_pair (f : pagename -> V) (ks : list pagename) :
  keys (map (fun p => (p, f p)) ks) = ks.
Proof.
  unfold keys. rewrite map_map. simpl. apply map_id.
Qed.

(** A comprehension [{p: e for p in ks}] over distinct [ks] whose expression
    never raises is the list of the pairs, in order. *)
Lemma comprehension_Ok (body : pagename -> pydict V -> result (pydict V))
    (f : pagename -> V) (ks : list pagename) (acc : pydict V) :
  NoDup (keys acc ++ ks) ->
  (forall p acc', In p ks -> body p acc' = Ok (setitem acc' p (f p))) ->
  for_in ks body acc = Ok (acc ++ map (fun p => (p, f p)) ks).
Proof.
  revert acc. induction ks as [|k ks IH]; intros acc Hnd Hbody; simpl.
  - now rewrite app_nil_r.
  - rewrite (Hbody k acc (or_introl eq_refl)). simpl.
    assert (Hfresh : ~ In k (keys acc)).
    { intros Hin. apply NoDup_remove_2 in Hnd. apply Hnd.
      apply in_or_app. now left. }
    rewrite setitem_fresh by assumption.
    rewrite IH.
    + now rewrite <- app_assoc.
    + rewrite keys_app. simpl. now rewrite <- app_assoc.
    + intros p acc' Hp. apply Hbody. now right.
Qed.

Lemma comprehension_nil (body : pagename -> pydict V -> result (pydict V))
    (f : pagename -> V) (ks : list pagename) :
  NoDup ks ->
  (forall p acc, In p ks -> body p acc = Ok (setitem acc p (f p))) ->
  for_in ks body [] = Ok (map (fun p => (p, f p)) ks).
Proof.
  intros Hnd Hbody. now apply (comprehension_Ok body f ks []).
Qed.

(** The same for a comprehension written as a fold (no exception possible). *)
Lemma fold_setitem (f : pagename -> V) (ks : list pagename) (acc : pydict V) :
  NoDup (keys acc ++ ks) ->
  fold_left (fun acc p => setitem acc p (f p)) ks acc
  = acc ++ map (fun p => (p, f p)) ks.
Proof.
  revert acc. induction ks as [|k ks IH]; intros acc Hnd; simpl.
  - now rewrite app_nil_r.
  - assert (Hfresh : ~ In k (keys acc)).
    { intros Hin. apply NoDup_remove_2 in Hnd. apply Hnd.
      apply in_or_app. now left. }
    rewrite setitem_fresh by assumption.
    rewrite IH.
    + now rewrite <- app_assoc.
    + rewrite keys_app. simpl. now rewrite <- app_assoc.
Qed.

End Dict.

(** ** Sums of rationals *)

Lemma len_cons {A : Type} (x : A) (l : list A) :
  inject_Z (len (x :: l)) == 1 + inject_Z (len l).
Proof.
  unfold len. simpl List.length. rewrite Nat2Z.inj_succ, <- Z.add_1_l.
  now rewrite inject_Z_plus.
Qed.

Lemma len_nonneg {A : Type} (l : list A) : 0 <= inject_Z (len l).
Proof.
  unfold len. change 0 with (inject_Z 0). rewrite <- Zle_Qle. lia.
Qed.

Lemma len_pos {A : Type} (l : list A) : l <> [] -> 0 < inject_Z (len l).
Proof.
  destruct l as [|x l]; [congruence|]. intros _.
  rewrite len_cons. pose proof (len_nonneg l) as H.
  revert H. generalize (inject_Z (len l)). intros n H. lra.
Qed.

Lemma len_zero_nil {A : Type} (l : list A) : (len l =? 0)%Z = true <-> l = [].
Proof.
  unfold len. rewrite Z.eqb_eq. destruct l; simpl; split; intros; try congruence; lia.
Qed.

Lemma Qsum_app (l1 l2 : list Q) : Qsum (l1 ++ l2) == Qsum l1 + Qsum l2.
Proof.
  induction l1 as [|x l1 IH]; simpl; [ring | rewrite IH; ring].
Qed.

Lemma Qsum_map_ext {A : Type} (f g : A -> Q) (l : list A) :
  (forall x, In x l -> f x == g x) -> Qsum (map f l) == Qsum (map g l).
Proof.
  induction l as [|x l IH]; simpl; intros H; [reflexivity|].
  rewrite (H x (or_introl eq_refl)), IH; [reflexivity|].
  intros y Hy. apply H. now right.
Qed.

Lemma Qsum_map_le {A : Type} (f g : A -> Q) (l : list A) :
  (forall x, In x l -> f x <= g x) -> Qsum (map f l) <= Qsum (map g l).
Proof.
  induction l as [|x l IH]; simpl; intros H; [apply Qle_refl|].
  apply Qplus_le_compat; [apply H; now left|].
  apply IH. intros y Hy. apply H. now right.
Qed.

Lemma Qsum_map_const {A : Type} (c : Q) (l : list A) :
  Qsum (map (fun _ => c) l) == inject_Z (len l) * c.
Proof.
  induction l as [|x l IH].
  - simpl. unfold len. simpl. ring.
  - simpl map. simpl Qsum. rewrite IH, len_cons. ring.
Qed.

Lemma Qsum_map_plus {A : Type} (f g : A -> Q) (l : list A) :
  Qsum (map (fun x => f x + g x) l) == Qsum (map f l) + Qsum (map g l).
Proof.
  induction l as [|x l IH]; simpl; [ring | rewrite IH; ring].
Qed.

Lemma Qsum_map_scale {A : Type} (c : Q) (f : A -> Q) (l : list A) :
  Qsum (map (fun x => c * f x) l) == c * Qsum (map f l).
Proof.
  induction l as [|x l IH]; simpl; [ring | rewrite IH; ring].
Qed.

Lemma Qsum_nonneg (l : list Q) : (forall x, In x l -> 0 <= x) -> 0 <= Qsum l.
Proof.
  induction l as [|x l IH]; simpl; intros H; [apply Qle_refl|].
  assert (0 <= x) by (apply H; now left).
  assert (0 <= Qsum l) by (apply IH; intros y Hy; apply H; now right).
  lra.
Qed.

Lemma Qabs_Qsum (l : list Q) : Qabs (Qsum l) <= Qsum (map Qabs l).
Proof.
  induction l as [|x l IH]; simpl; [apply Qle_refl|].
  eapply Qle_trans; [apply Qabs_triangle|]. lra.
Qed.

(** Summing [c] over the elements that pass a test. *)
Lemma Qsum_indicator {A : Type} (P : A -> bool) (c : Q) (l : list A) :
  Qsum (map (fun x => if P x then c else 0) l) == inject_Z (len (filter P l)) * c.
Proof.
  induction l as [|x l IH].
  - simpl. unfold len. simpl. ring.
  - simpl map. simpl Qsum. simpl filter. destruct (P x).
    + rewrite IH, len_cons. ring.
    + rewrite IH. ring.
Qed.

Lemma Qsum_filter {A : Type} (P : A -> bool) (f : A -> Q) (l : list A) :
  Qsum (map f (filter P l)) == Qsum (map (fun x => if P x then f x else 0) l).
Proof.
  induction l as [|x l IH]; simpl; [reflexivity|].
  destruct (P x); simpl; rewrite IH; ring.
Qed.

(** Exchange of two finite sums. *)
Lemma Qsum_exchange {A B : Type} (h : A -> B -> Q) (xs : list A) (ys : list B) :
  Qsum (map (fun x => Qsum (map (fun y => h x y) ys)) xs)
  == Qsum (map (fun y => Qsum (map (fun x => h x y) xs)) ys).
Proof.
  induction xs as [|x xs IH]; simpl.
  - rewrite (Qsum_map_const 0 ys). ring.
  - rewrite IH. now rewrite Qsum_map_plus.
Qed.

(** How many of the [pages] a set of links holds: at most its size, and
    exactly its size when every link is a page. *)
Lemma count_links_le (pages : list pagename) (links : pyset) :
  NoDup pages ->
  (len (filter (contains links) pages) <= len links)%Z.
Proof.
  intros Hnd. unfold len. apply Nat2Z.inj_le. apply NoDup_incl_length.
  - now apply NoDup_filter.
  - intros q Hq. apply filter_In in Hq. now apply contains_In.
Qed.

Lemma count_links_eq (pages : list pagename) (links : pyset) :
  NoDup pages -> NoDup links -> incl links pages ->
  len (filter (contains links) pages) = len links.
Proof.
  intros Hp Hl Hincl. apply Z.le_antisymm; [now apply count_links_le|].
  unfold len. apply Nat2Z.inj_le. apply NoDup_incl_length; [assumption|].
  intros q Hq. apply filter_In. split; [now apply Hincl | now apply contains_In].
Qed.

Lemma values_map_pair {V : Type} (f : pagename -> V) (ks : list pagename) :
  values (map (fun p => (p, f p)) ks) = map f ks.
Proof.
  unfold values. rewrite map_map. reflexivity.
Qed.

Lemma len_keys {V : Type} (d : pydict V) : len (keys d) = len d.
Proof. unfold len, keys. now rewrite length_map. Qed.

Lemma len_nonzero {A : Type} (l : list A) (x : A) :
  In x l -> (len l =? 0)%Z = false.
Proof.
  intros Hin. destruct (len l =? 0)%Z eqn:E; [|reflexivity].
  apply len_zero_nil in E. subst. contradiction.
Qed.

(** ** The transition model *)

Section TransitionModel.

Context {F : Type} {NumF : Num F}.

Lemma transition_model_Ok (corpus : pydict pyset) (p : pagename)
    (links : pyset) (d : F) :
  NoDup (keys corpus) -> getitem corpus p = Ok links ->
  transition_model corpus p d
  = Ok (map (fun q => (q, transition_value corpus links d q)) (keys corpus)).
Proof.
  intros Hnd Hget. unfold transition_model, transition_value.
  rewrite Hget. simpl bind.
  assert (HN : (len corpus =? 0)%Z = false).
  { apply getitem_Ok_In in Hget. eapply len_nonzero. exact Hget. }
  destruct (len links =? 0)%Z eqn:HL.
  - apply (comprehension_nil _ (fun _ => fdiv (of_int 1) (of_int (len corpus))));
      [exact Hnd|].
    intros q acc _. unfold truediv. now rewrite HN.
  - apply (comprehension_nil _
             (fun q => fadd (if contains links q
                             then fdiv d (of_int (len links)) else of_int 0)
                            (fdiv (fsub (of_int 1) d) (of_int (len corpus)))));
      [exact Hnd|].
    intros q acc _. unfold truediv. rewrite HN, HL.
    now destruct (contains links q).
Qed.

End TransitionModel.

Ltac qnum := cbn [of_int fadd fsub fmul fdiv fabs fle flt QNum] in *.

(** C1. On a graph that satisfies the graph invariant, from a page [p] of the
    graph and with a damping factor strictly between 0 and 1,
    [transition_model] returns a mapping whose keys are exactly the pages of
    the graph; a page without outlinks gives every page [1/N]; otherwise page
    [q] gets [d/L] when [p] links to it (else 0) plus [(1-d)/N]; and the
    values sum to 1 (in exact arithmetic). *)
Theorem transition_model_distribution (corpus : pydict pyset) (p : pagename)
    (d : Q) :
  well_formed corpus = true -> graph_invariant corpus = true ->
  In p (keys corpus) -> 0 < d -> d < 1 ->
  exists links tm,
    getitem corpus p = Ok links /\
    transition_model corpus p d = Ok tm /\
    keys tm = keys corpus /\
    (forall q, In q (keys corpus) ->
       getitem tm q
       = Ok (if (len links =? 0)%Z then 1 / inject_Z (len corpus)
             else (if contains links q then d / inject_Z (len links) else 0)
                  + (1 - d) / inject_Z (len corpus))) /\
    Qsum (values tm) == 1.
Proof.
  intros Hwf Hinv Hp Hd0 Hd1.
  pose proof (well_formed_keys _ Hwf) as Hnd.
  destruct (getitem_keys corpus p Hp) as [links Hget].
  exists links. eexists. split; [exact Hget|].
  split; [apply transition_model_Ok; [exact Hnd | exact Hget]|].
  split; [apply keys_map_pair|].
  split.
  - intros q Hq. rewrite getitem_map by assumption. reflexivity.
  - rewrite values_map_pair. unfold transition_value. qnum.
    assert (HN : 0 < inject_Z (len corpus)).
    { apply len_pos. intros ->. contradiction. }
    change (inject_Z 1) with 1. change (inject_Z 0) with 0.
    destruct (len links =? 0)%Z eqn:HL.
    + rewrite Qsum_map_const, len_keys.
      revert HN. generalize (inject_Z (len corpus)). intros N HN.
      field. lra.
    + assert (HLpos : 0 < inject_Z (len links)).
      { apply len_pos. intros ->. discriminate. }
      rewrite (Qsum_map_plus
                 (fun q => if contains links q then d / inject_Z (len links)
                           else 0)
                 (fun _ => (1 - d) / inject_Z (len corpus))).
      rewrite Qsum_map_const, len_keys, Qsum_indicator.
      rewrite (count_links_eq Hnd).
      * revert HN HLpos.
        generalize (inject_Z (len corpus)), (inject_Z (len links)).
        intros N L HN HLpos. field. split; lra.
      * apply getitem_Ok_In in Hget. eapply well_formed_links; eassumption.
      * intros q Hq. apply getitem_Ok_In in Hget.
        exact (proj1 (@graph_invariant_links corpus p q links Hinv Hget Hq)).
Qed.

(** C8. Called with a page that is not a key of the graph, whatever the graph
    and the damping factor (and whatever the arithmetic), [transition_model]
    raises [KeyError] at the lookup [corpus[page]] and returns no
    distribution. *)
Theorem transition_model_KeyError {F : Type} {NumF : Num F}
    (corpus : pydict pyset) (p : pagename) (d : F) :
  ~ In p (keys corpus) -> transition_model corpus p d = Raise KeyError.
Proof.
  intros Hp. unfold transition_model.
  now rewrite (getitem_not_keys _ _ Hp).
Qed.

(** ** The iterative solver: what one round computes *)

Lemma fold_setitem_items {A V : Type} (g : pagename * A -> V)
    (l : pydict A) (acc : pydict V) :
  NoDup (keys acc ++ keys l) ->
  fold_left (fun acc kv => setitem acc (fst kv) (g kv)) l acc
  = acc ++ map (fun kv => (fst kv, g kv)) l.
Proof.
  revert acc. induction l as [|kv l IH]; intros acc Hnd; simpl.
  - now rewrite app_nil_r.
  - assert (Hfresh : ~ In (fst kv) (keys acc)).
    { intros Hin. simpl in Hnd. apply NoDup_remove_2 in Hnd. apply Hnd.
      apply in_or_app. now left. }
    rewrite setitem_fresh by assumption.
    rewrite IH.
    + now rewrite <- app_assoc.
    + rewrite keys_app. simpl in *. now rewrite <- app_assoc.
Qed.

Lemma normalize_normalized (corpus : pydict pyset) :
  NoDup (keys corpus) -> normalize corpus = normalized corpus.
Proof.
  intros Hnd. unfold normalize, normalized, set_of_list.
  rewrite (nodup_fixed_point string_dec Hnd).
  now rewrite fold_setitem_items.
Qed.

Lemma keys_normalized (corpus : pydict pyset) :
  keys (normalized corpus) = keys corpus.
Proof.
  unfold normalized, keys. rewrite map_map. reflexivity.
Qed.

Lemma len_normalized (corpus : pydict pyset) :
  len (normalized corpus) = len corpus.
Proof. unfold len, normalized. now rewrite length_map. Qed.

Lemma normalized_proper (corpus : pydict pyset) :
  well_formed corpus = true -> corpus <> [] -> proper_graph (normalized corpus).
Proof.
  intros Hwf Hne. pose proof (well_formed_keys _ Hwf) as Hnd. split.
  - now rewrite keys_normalized.
  - intros p links Hin. unfold normalized in Hin. apply in_map_iff in Hin.
    destruct Hin as [[p' links'] [Heq Hin]]. simpl in Heq.
    inversion Heq; subst; clear Heq.
    destruct (len links' =? 0)%Z eqn:E.
    + split; [|exact Hnd]. destruct corpus; [congruence | discriminate].
    + split.
      * intros ->. discriminate.
      * eapply well_formed_links; eassumption.
Qed.

Lemma normalized_closed (corpus : pydict pyset) :
  graph_invariant corpus = true -> closed_graph (normalized corpus).
Proof.
  intros Hinv p links q Hin Hq. rewrite keys_normalized.
  unfold normalized in Hin. apply in_map_iff in Hin.
  destruct Hin as [[p' links'] [Heq Hin]]. simpl in Heq.
  inversion Heq; subst; clear Heq.
  destruct (len links' =? 0)%Z; [exact Hq|].
  exact (proj1 (@graph_invariant_links corpus p q links' Hinv Hin Hq)).
Qed.

Section Round.

Context {F : Type} {NumF : Num F}.

Lemma rank_of_getitem (page_rank : pydict F) (p : pagename) :
  In p (keys page_rank) -> getitem page_rank p = Ok (rank_of page_rank p).
Proof.
  intros Hin. unfold rank_of.
  destruct (getitem_keys page_rank p Hin) as [v Hv]. now rewrite Hv.
Qed.

Lemma lead_pages_from (nc l : pydict pyset) (page_rank : pydict F)
    (page : pagename) (lead : F) :
  proper_graph nc -> incl (keys nc) (keys page_rank) -> incl l nc ->
  for_in (keys l)
    (fun p lead =>
       links <- getitem nc p ;;
       if contains links page then
         r <- getitem page_rank p ;;
         links' <- getitem nc p ;;
         q <- truediv r (len links') ;;
         Ok (fadd lead q)
       else Ok lead)
    lead
  = Ok (fold_left
          (fun lead kv =>
             if contains (snd kv) page
             then fadd lead
                    (fdiv (rank_of page_rank (fst kv)) (of_int (len (snd kv))))
             else lead)
          l lead).
Proof.
  intros [Hnd Hlinks] Hkeys. revert lead.
  induction l as [|[p links] l IH]; intros lead Hall; simpl; [reflexivity|].
  assert (Hin : In (p, links) nc) by (apply Hall; now left).
  rewrite (getitem_In _ _ _ Hnd Hin). simpl.
  destruct (contains links page).
  - rewrite rank_of_getitem.
    + simpl. unfold truediv.
      destruct (len links =? 0)%Z eqn:E.
      * apply len_zero_nil in E. now destruct (Hlinks _ _ Hin).
      * simpl. apply IH. intros kv Hkv. apply Hall. now right.
    + apply Hkeys. change p with (fst (p, links)). now apply in_map.
  - apply IH. intros kv Hkv. apply Hall. now right.
Qed.

Lemma lead_pages_Ok (nc : pydict pyset) (page_rank : pydict F)
    (page : pagename) :
  proper_graph nc -> incl (keys nc) (keys page_rank) ->
  lead_pages nc page_rank page = Ok (lead_value nc page_rank page).
Proof.
  intros Hprop Hkeys. unfold lead_pages, lead_value.
  apply lead_pages_from; [assumption | assumption | apply incl_refl].
Qed.

Lemma round_Ok (nc : pydict pyset) (d : F) (page_rank : pydict F) :
  proper_graph nc -> nc <> [] -> NoDup (keys page_rank) ->
  incl (keys nc) (keys page_rank) ->
  round nc d (len nc) page_rank = Ok (next_rank nc d page_rank).
Proof.
  intros Hprop Hne Hnd Hkeys. unfold round, next_rank.
  apply comprehension_nil; [exact Hnd|].
  intros page acc _. rewrite lead_pages_Ok by assumption. simpl.
  unfold truediv.
  destruct (len nc =? 0)%Z eqn:E; [|reflexivity].
  apply len_zero_nil in E. contradiction.
Qed.

Lemma initial_rank_Ok (nc : pydict pyset) :
  NoDup (keys nc) -> nc <> [] ->
  initial_rank nc (len nc) = Ok (first_rank nc).
Proof.
  intros Hnd Hne. unfold initial_rank, first_rank.
  apply comprehension_nil; [exact Hnd|].
  intros p acc _. unfold truediv.
  destruct (len nc =? 0)%Z eqn:E; [|reflexivity].
  apply len_zero_nil in E. contradiction.
Qed.

Lemma keys_next_rank (nc : pydict pyset) (d : F) (page_rank : pydict F) :
  keys (next_rank nc d page_rank) = keys page_rank.
Proof. unfold next_rank. apply keys_map_pair. Qed.

Lemma keys_first_rank (nc : pydict pyset) : keys (first_rank nc) = keys nc.
Proof. unfold first_rank. apply keys_map_pair. Qed.

Lemma delta_list_Ok (nc : pydict pyset) (a b : pydict F) :
  incl (keys nc) (keys a) -> incl (keys nc) (keys b) ->
  delta_list nc a b = Ok (deltas nc a b).
Proof.
  intros Ha Hb. unfold delta_list, deltas.
  assert (H : forall ks acc, incl ks (keys a) -> incl ks (keys b) ->
            for_in ks
              (fun p acc =>
                 x <- getitem a p ;; y <- getitem b p ;;
                 Ok (acc ++ [fabs (fsub x y)]))
              acc
            = Ok (acc ++ map (fun p => fabs (fsub (rank_of a p) (rank_of b p))) ks)).
  { induction ks as [|k ks IH]; intros acc Hka Hkb; simpl.
    - now rewrite app_nil_r.
    - rewrite (rank_of_getitem a k) by (apply Hka; now left).
      rewrite (rank_of_getitem b k) by (apply Hkb; now left).
      simpl. rewrite IH.
      + now rewrite <- app_assoc.
      + intros x Hx. apply Hka. now right.
      + intros x Hx. apply Hkb. now right. }
  exact (H (keys nc) [] Ha Hb).
Qed.

Lemma max_delta_Ok (nc : pydict pyset) (a b : pydict F) :
  incl (keys nc) (keys a) -> incl (keys nc) (keys b) ->
  max_delta nc a b = pymax (deltas nc a b).
Proof.
  intros Ha Hb. unfold max_delta. now rewrite delta_list_Ok.
Qed.

Lemma keys_rank_iter (k : nat) (nc : pydict pyset) (d : F) :
  keys (rank_iter k nc d) = keys nc.
Proof.
  induction k as [|k IH]; simpl.
  - apply keys_first_rank.
  - now rewrite keys_next_rank.
Qed.

Lemma page_rank_after_Ok (k : nat) (corpus : pydict pyset) (d : F) :
  well_formed corpus = true -> corpus <> [] ->
  page_rank_after k corpus d = Ok (rank_iter k (normalized corpus) d).
Proof.
  intros Hwf Hne. pose proof (well_formed_keys _ Hwf) as Hnd.
  pose proof (normalized_proper Hwf Hne) as Hprop.
  assert (Hne' : normalized corpus <> []).
  { unfold normalized. destruct corpus; [congruence | discriminate]. }
  induction k as [|k IH]; simpl.
  - rewrite normalize_normalized by assumption.
    apply initial_rank_Ok; [apply Hprop | exact Hne'].
  - rewrite IH. simpl. rewrite normalize_normalized by assumption.
    apply round_Ok; try assumption.
    + rewrite keys_rank_iter. apply Hprop.
    + rewrite keys_rank_iter. apply incl_refl.
Qed.

End Round.

(** ** The recurrence in exact arithmetic *)

Lemma Qmult_le_nonneg_l (c x y : Q) : 0 <= c -> x <= y -> c * x <= c * y.
Proof.
  intros Hc Hxy. rewrite (Qmult_comm c x), (Qmult_comm c y).
  now apply Qmult_le_compat_r.
Qed.

Lemma Qsum_map_minus {A : Type} (f g : A -> Q) (l : list A) :
  Qsum (map (fun x => f x - g x) l) == Qsum (map f l) - Qsum (map g l).
Proof.
  induction l as [|x l IH]; simpl; [ring | rewrite IH; ring].
Qed.

Lemma fold_left_cond_sum {A : Type} (P : A -> bool) (g : A -> Q) (l : list A)
    (a : Q) :
  fold_left (fun lead x => if P x then lead + g x else lead) l a
  == a + Qsum (map g (filter P l)).
Proof.
  revert a. induction l as [|x l IH]; intros a; simpl; [ring|].
  rewrite IH. destruct (P x); simpl; ring.
Qed.

Lemma lead_value_sum (nc : pydict pyset) (pr : pydict Q) (page : pagename) :
  lead_value nc pr page
  == Qsum (map (fun q => rank_of pr (fst q) / inject_Z (len (snd q)))
             (filter (fun q => contains (snd q) page) nc)).
Proof.
  unfold lead_value. qnum.
  rewrite (fold_left_cond_sum (fun q => contains (snd q) page)
             (fun q => rank_of pr (fst q) / inject_Z (len (snd q)))).
  change (inject_Z 0) with 0. apply Qplus_0_l.
Qed.

Lemma rank_of_next_rank (nc : pydict pyset) (d : Q) (pr : pydict Q)
    (p : pagename) :
  In p (keys pr) ->
  rank_of (next_rank nc d pr) p == new_rank nc d (rank_of pr) p.
Proof.
  intros Hin. unfold rank_of at 1. unfold next_rank.
  rewrite getitem_map by assumption. unfold new_rank. qnum.
  rewrite lead_value_sum. reflexivity.
Qed.

Lemma rank_of_first_rank (nc : pydict pyset) (p : pagename) :
  In p (keys nc) -> rank_of (first_rank nc) p = 1 / inject_Z (len nc).
Proof.
  intros Hin. unfold rank_of, first_rank.
  rewrite getitem_map by assumption. reflexivity.
Qed.


(** Summing over the pages [p] the weights of the entries that link to [p]
    counts each entry once per page it links to. *)
Lemma column_exchange (w : pagename * pyset -> Q) (pages : list pagename)
    (l : pydict pyset) :
  Qsum (map (fun p => Qsum (map w (filter (fun q => contains (snd q) p) l)))
          pages)
  == Qsum (map (fun q =>
                  inject_Z (len (filter (contains (snd q)) pages)) * w q) l).
Proof.
  rewrite (Qsum_map_ext
             (fun p => Qsum (map w (filter (fun q => contains (snd q) p) l)))
             (fun p => Qsum (map (fun q => if contains (snd q) p then w q else 0)
                               l))).
  - rewrite (Qsum_exchange
               (fun p q => if contains (snd q) p then w q else 0) pages l).
    apply Qsum_map_ext. intros q _.
    apply (Qsum_indicator (contains (snd q)) (w q) pages).
  - intros p _. apply Qsum_filter.
Qed.

Section Recurrence.

Variable nc : pydict pyset.

Variable d : Q.

Hypothesis Hprop : proper_graph nc.

Hypothesis Hne : nc <> [].

Hypothesis Hd0 : 0 <= d.

Lemma outdegree_pos (q : pagename * pyset) :
  In q nc -> 0 < inject_Z (len (snd q)).
Proof.
  intros Hin. apply len_pos. destruct q as [k links].
  now destruct (proj2 Hprop _ _ Hin).
Qed.

(** The share of [x] that an entry hands to the pages: at most [x], all of
    [x] when its links are pages. *)
Lemma column_share_le (q : pagename * pyset) (x : Q) :
  In q nc -> 0 <= x ->
  inject_Z (len (filter (contains (snd q)) (keys nc)))
  * (x / inject_Z (len (snd q))) <= x.
Proof.
  intros Hin Hx. pose proof (outdegree_pos q Hin) as HL.
  pose proof (count_links_le (snd q) (proj1 Hprop)) as Hc.
  rewrite Zle_Qle in Hc.
  pose proof (len_nonneg (filter (contains (snd q)) (keys nc))) as Hc0.
  revert HL Hc Hc0.
  generalize (inject_Z (len (filter (contains (snd q)) (keys nc)))).
  generalize (inject_Z (len (snd q))). intros L c HL Hc Hc0.
  setoid_replace (c * (x / L)) with (x * (c / L)) by (field; lra).
  assert (Hr : c / L <= 1).
  { apply Qle_shift_div_r; lra. }
  assert (Hr0 : 0 <= c / L).
  { apply Qle_shift_div_l; lra. }
  nra.
Qed.

Lemma column_share_eq (q : pagename * pyset) (x : Q) :
  closed_graph nc -> In q nc ->
  inject_Z (len (filter (contains (snd q)) (keys nc)))
  * (x / inject_Z (len (snd q))) == x.
Proof.
  intros Hclosed Hin. pose proof (outdegree_pos q Hin) as HL.
  destruct q as [k links]. simpl in *.
  rewrite (count_links_eq (proj1 Hprop)).
  - revert HL. generalize (inject_Z (len links)). intros L HL. field. lra.
  - now destruct (proj2 Hprop _ _ Hin).
  - intros p Hp. eapply Hclosed; eassumption.
Qed.

(** One round keeps the total rank: the new ranks sum to
    [(1-d) + d * (sum of the old ranks)]. *)
Lemma sum_new_rank (rank : pagename -> Q) :
  closed_graph nc ->
  Qsum (map (new_rank nc d rank) (keys nc))
  == (1 - d) + d * Qsum (map rank (keys nc)).
Proof.
  intros Hclosed. unfold new_rank.
  rewrite (Qsum_map_plus (fun _ => (1 - d) / inject_Z (len nc))
             (fun p => d * Qsum (map (fun q => rank (fst q) / inject_Z (len (snd q)))
                                   (filter (fun q => contains (snd q) p) nc)))).
  rewrite Qsum_map_const, len_keys.
  rewrite (Qsum_map_scale d
             (fun p => Qsum (map (fun q => rank (fst q) / inject_Z (len (snd q)))
                               (filter (fun q => contains (snd q) p) nc)))).
  rewrite column_exchange.
  rewrite (Qsum_map_ext
             (fun q => inject_Z (len (filter (contains (snd q)) (keys nc)))
                       * (rank (fst q) / inject_Z (len (snd q))))
             (fun q => rank (fst q))).
  - unfold keys. rewrite map_map.
    pose proof (len_pos Hne) as HN. revert HN.
    generalize (inject_Z (len nc)). intros N HN. field. lra.
  - intros q Hq. now apply column_share_eq.
Qed.

(** One round is a contraction for the sum of absolute differences. *)
Lemma new_rank_contraction (r1 r2 : pagename -> Q) :
  Qsum (map (fun p => Qabs (new_rank nc d r1 p - new_rank nc d r2 p)) (keys nc))
  <= d * Qsum (map (fun p => Qabs (r1 p - r2 p)) (keys nc)).
Proof.
  eapply Qle_trans.
  - apply (Qsum_map_le _
             (fun p => d * Qsum (map (fun q => Qabs (r1 (fst q) - r2 (fst q))
                                               / inject_Z (len (snd q)))
                                   (filter (fun q => contains (snd q) p) nc)))).
    intros p _. unfold new_rank.
    set (l := filter (fun q => contains (snd q) p) nc).
    assert (Hl : forall q, In q l -> In q nc).
    { intros q Hq. unfold l in Hq. now apply filter_In in Hq. }
    setoid_replace
      ((1 - d) / inject_Z (len nc)
       + d * Qsum (map (fun q => r1 (fst q) / inject_Z (len (snd q))) l)
       - ((1 - d) / inject_Z (len nc)
          + d * Qsum (map (fun q => r2 (fst q) / inject_Z (len (snd q))) l)))
      with (d * Qsum (map (fun q => r1 (fst q) / inject_Z (len (snd q))
                                    - r2 (fst q) / inject_Z (len (snd q))) l))
      by (rewrite Qsum_map_minus; ring).
    rewrite Qabs_Qmult, (Qabs_pos d Hd0).
    apply Qmult_le_nonneg_l; [exact Hd0|].
    eapply Qle_trans; [apply Qabs_Qsum|]. rewrite map_map.
    apply Qsum_map_le. intros q Hq.
    pose proof (outdegree_pos q (Hl q Hq)) as HL.
    change (0 < inject_Z (len (snd q))) in HL. revert HL.
    generalize (inject_Z (len (snd q))). intros L HL.
    setoid_replace (r1 (fst q) / L - r2 (fst q) / L)
      with ((r1 (fst q) - r2 (fst q)) * / L) by (field; lra).
    rewrite Qabs_Qmult, (Qabs_pos (/ L)).
    + apply Qle_refl.
    + apply Qlt_le_weak. now apply Qinv_lt_0_compat.
  - rewrite (Qsum_map_scale d
               (fun p => Qsum (map (fun q => Qabs (r1 (fst q) - r2 (fst q))
                                             / inject_Z (len (snd q)))
                                 (filter (fun q => contains (snd q) p) nc)))).
    apply Qmult_le_nonneg_l; [exact Hd0|].
    rewrite column_exchange.
    unfold keys at 2. rewrite map_map.
    apply Qsum_map_le. intros q Hq.
    apply column_share_le; [exact Hq | apply Qabs_nonneg].
Qed.

End Recurrence.

(** ** The loop of [iterate_pagerank] *)

Section Loop.

Context {F : Type} {NumF : Num F}.

Variable nc : pydict pyset.

Variable d : F.

Hypothesis Hprop : proper_graph nc.

Hypothesis Hne : nc <> [].

Lemma pymax_nonempty (l : list F) : l <> [] -> exists m, pymax l = Ok m.
Proof.
  destruct l as [|x l]; [congruence|]. intros _. simpl. eauto.
Qed.

Lemma deltas_nonempty (a b : pydict F) : deltas nc a b <> [].
Proof.
  unfold deltas, keys. destruct nc; [congruence | discriminate].
Qed.

Lemma iterate_loop_step (fuel j : nat) :
  iterate_loop (S fuel) nc d (len nc) (rank_iter j nc d)
  = if converged j nc d then Some (Ok (rank_iter (S j) nc d))
    else iterate_loop fuel nc d (len nc) (rank_iter (S j) nc d).
Proof.
  cbn [iterate_loop].
  rewrite round_Ok; try assumption.
  - rewrite max_delta_Ok.
    + unfold converged. cbn [rank_iter].
      destruct (pymax_nonempty
                  (deltas_nonempty (rank_iter j nc d)
                     (next_rank nc d (rank_iter j nc d)))) as [m Hm].
      rewrite Hm. reflexivity.
    + rewrite keys_rank_iter. apply incl_refl.
    + rewrite keys_next_rank, keys_rank_iter. apply incl_refl.
  - rewrite keys_rank_iter. apply Hprop.
  - rewrite keys_rank_iter. apply incl_refl.
Qed.

(** If the test holds in some round, the loop returns the ranks of the first
    such round, given fuel for that many rounds. *)
Lemma iterate_loop_reaches (n j : nat) :
  converged (j + n) nc d = true ->
  exists k, (j <= k <= j + n)%nat /\ converged k nc d = true /\
    forall fuel, (k - j < fuel)%nat ->
      iterate_loop fuel nc d (len nc) (rank_iter j nc d)
      = Some (Ok (rank_iter (S k) nc d)).
Proof.
  revert j. induction n as [|n IH]; intros j Hconv.
  - rewrite Nat.add_0_r in Hconv. exists j. repeat split; try lia; [assumption|].
    intros [|fuel] Hfuel; [lia|]. rewrite iterate_loop_step. now rewrite Hconv.
  - destruct (converged j nc d) eqn:Hj.
    + exists j. repeat split; try lia; [assumption|].
      intros [|fuel] Hfuel; [lia|]. rewrite iterate_loop_step. now rewrite Hj.
    + destruct (IH (S j)) as [k [Hk [Hck Hrun]]].
      { now replace (S j + n)%nat with (j + S n)%nat by lia. }
      exists k. repeat split; try lia; [assumption|].
      intros [|fuel] Hfuel; [lia|]. rewrite iterate_loop_step, Hj.
      apply Hrun. lia.
Qed.

(** Whatever the loop returns is the ranks after some round whose test held. *)
Lemma iterate_loop_result (fuel j : nat) (r : result (pydict F)) :
  iterate_loop fuel nc d (len nc) (rank_iter j nc d) = Some r ->
  exists k, (j <= k)%nat /\ converged k nc d = true /\
            r = Ok (rank_iter (S k) nc d).
Proof.
  revert j. induction fuel as [|fuel IH]; intros j; [discriminate|].
  rewrite iterate_loop_step. destruct (converged j nc d) eqn:Hj.
  - intros H. inversion H. exists j. auto.
  - intros H. destruct (IH _ H) as [k [Hk [Hck Hr]]].
    exists k. repeat split; try assumption. lia.
Qed.

End Loop.

Lemma normalized_nonempty (corpus : pydict pyset) :
  corpus <> [] -> normalized corpus <> [].
Proof.
  unfold normalized. destruct corpus; [congruence | discriminate].
Qed.

Lemma iterate_pagerank_loop {F : Type} {NumF : Num F} (fuel : nat)
    (corpus : pydict pyset) (d : F) :
  well_formed corpus = true -> corpus <> [] ->
  iterate_pagerank fuel corpus d
  = iterate_loop fuel (normalized corpus) d (len (normalized corpus))
      (rank_iter 0 (normalized corpus) d).
Proof.
  intros Hwf Hne. unfold iterate_pagerank.
  rewrite normalize_normalized by now apply well_formed_keys.
  rewrite initial_rank_Ok; [reflexivity | |now apply normalized_nonempty].
  rewrite keys_normalized. now apply well_formed_keys.
Qed.

(** ** The iterates in exact arithmetic *)

Section Iterates.

Variable nc : pydict pyset.

Variable d : Q.

Hypothesis Hprop : proper_graph nc.

Hypothesis Hne : nc <> [].

Hypothesis Hd0 : 0 <= d.

Hypothesis Hd1 : d <= 1.

Lemma rank_iter_succ (k : nat) (p : pagename) :
  In p (keys nc) ->
  rank_of (rank_iter (S k) nc d) p
  == new_rank nc d (rank_of (rank_iter k nc d)) p.
Proof.
  intros Hin. cbn [rank_iter]. apply rank_of_next_rank.
  now rewrite keys_rank_iter.
Qed.

Lemma new_rank_floor (rank : pagename -> Q) (p : pagename) :
  (forall q, In q (keys nc) -> 0 <= rank q) ->
  (1 - d) / inject_Z (len nc) <= new_rank nc d rank p.
Proof.
  intros Hrank. unfold new_rank.
  assert (Hsum : 0 <= Qsum (map (fun q => rank (fst q) / inject_Z (len (snd q)))
                              (filter (fun q => contains (snd q) p) nc))).
  { apply Qsum_nonneg. intros x Hx. apply in_map_iff in Hx.
    destruct Hx as [q [Hq Hin]]. subst x. apply filter_In in Hin.
    destruct Hin as [Hin _].
    pose proof (outdegree_pos Hprop q Hin) as HL.
    assert (Hr : 0 <= rank (fst q)).
    { apply Hrank. unfold keys. now apply in_map. }
    apply Qle_shift_div_l; [exact HL | lra]. }
  revert Hsum. generalize (Qsum (map (fun q => rank (fst q) / inject_Z (len (snd q)))
                              (filter (fun q => contains (snd q) p) nc))).
  intros s Hs. pose proof (Qmult_le_0_compat d s Hd0 Hs) as Hds.
  revert Hds. generalize (d * s), ((1 - d) / inject_Z (len nc)).
  intros x y Hx. lra.
Qed.

Lemma floor_nonneg : 0 <= (1 - d) / inject_Z (len nc).
Proof.
  apply Qle_shift_div_l; [now apply len_pos | lra].
Qed.

Lemma rank_iter_nonneg (k : nat) (p : pagename) :
  In p (keys nc) -> 0 <= rank_of (rank_iter k nc d) p.
Proof.
  revert p. induction k as [|k IH]; intros p Hin.
  - cbn [rank_iter]. rewrite rank_of_first_rank by assumption.
    apply Qle_shift_div_l; [now apply len_pos | lra].
  - rewrite rank_iter_succ by assumption.
    eapply Qle_trans; [apply floor_nonneg|]. now apply new_rank_floor.
Qed.

Lemma rank_iter_floor (k : nat) (p : pagename) :
  In p (keys nc) ->
  (1 - d) / inject_Z (len nc) <= rank_of (rank_iter (S k) nc d) p.
Proof.
  intros Hin. rewrite rank_iter_succ by assumption.
  apply new_rank_floor. intros q Hq. now apply rank_iter_nonneg.
Qed.

Lemma rank_iter_sum (k : nat) :
  closed_graph nc ->
  Qsum (map (rank_of (rank_iter k nc d)) (keys nc)) == 1.
Proof.
  intros Hclosed. induction k as [|k IH].
  - cbn [rank_iter].
    rewrite (Qsum_map_ext (rank_of (first_rank nc))
               (fun _ => 1 / inject_Z (len nc))).
    + rewrite Qsum_map_const, len_keys. pose proof (len_pos Hne) as HN.
      revert HN. generalize (inject_Z (len nc)). intros N HN. field. lra.
    + intros p Hp. now rewrite rank_of_first_rank.
  - rewrite (Qsum_map_ext (rank_of (rank_iter (S k) nc d))
               (new_rank nc d (rank_of (rank_iter k nc d)))).
    + rewrite sum_new_rank by assumption. rewrite IH. ring.
    + intros p Hp. now apply rank_iter_succ.
Qed.

Lemma total_delta_nonneg (k : nat) : 0 <= total_delta nc d k.
Proof.
  unfold total_delta, deltas. apply Qsum_nonneg. intros x Hx.
  apply in_map_iff in Hx. destruct Hx as [p [Hp _]]. subst x. qnum.
  apply Qabs_nonneg.
Qed.

Lemma total_delta_contracts (k : nat) :
  total_delta nc d (S k) <= d * total_delta nc d k.
Proof.
  unfold total_delta, deltas. qnum.
  rewrite (Qsum_map_ext
             (fun p => Qabs (rank_of (rank_iter (S k) nc d) p
                             - rank_of (rank_iter (S (S k)) nc d) p))
             (fun p => Qabs (new_rank nc d (rank_of (rank_iter k nc d)) p
                             - new_rank nc d (rank_of (rank_iter (S k) nc d)) p))).
  - apply new_rank_contraction; assumption.
  - intros p Hp. rewrite (rank_iter_succ k p Hp).
    rewrite (rank_iter_succ (S k) p Hp). reflexivity.
Qed.

(** Bernoulli's bound, without powers: [total_delta nc d k] decays at least like
    [1 / (1 + k (1-d))]. *)
Lemma total_delta_decay (k : nat) :
  total_delta nc d k * (1 + inject_Z (Z.of_nat k) * (1 - d)) <= total_delta nc d 0.
Proof.
  induction k as [|k IH].
  - simpl. ring_simplify. apply Qle_refl.
  - pose proof (total_delta_contracts k) as Hc.
    pose proof (total_delta_nonneg k) as Hk.
    pose proof (total_delta_nonneg (S k)) as HSk.
    rewrite Nat2Z.inj_succ, <- Z.add_1_l, inject_Z_plus.
    change (inject_Z 1) with 1.
    assert (Hn : 0 <= inject_Z (Z.of_nat k)).
    { change 0 with (inject_Z 0). rewrite <- Zle_Qle. lia. }
    revert IH Hc Hk HSk Hn.
    generalize (total_delta nc d (S k)), (total_delta nc d k), (total_delta nc d 0),
      (inject_Z (Z.of_nat k)).
    intros a b c n IH Hc Hk HSk Hn.
    apply Qle_trans with (b * (1 + n * (1 - d))); [|exact IH].
    apply Qle_trans with (d * b * (1 + (1 + n) * (1 - d))).
    + apply Qmult_le_compat_r; [exact Hc|]. nra.
    + assert (Hd : d * (1 + (1 + n) * (1 - d)) <= 1 + n * (1 - d)).
      { assert (0 <= (1 + n) * ((1 - d) * (1 - d))).
        { apply Qmult_le_0_compat; [lra|].
          apply Qmult_le_0_compat; lra. }
        lra. }
      setoid_replace (d * b * (1 + (1 + n) * (1 - d)))
        with (b * (d * (1 + (1 + n) * (1 - d)))) by ring.
      now apply Qmult_le_nonneg_l.
Qed.

Lemma total_delta_small (eps : Q) :
  d < 1 -> 0 < eps -> exists k, total_delta nc d k <= eps.
Proof.
  intros Hlt Heps.
  set (q := total_delta nc d 0 / (eps * (1 - d))).
  exists (Z.to_nat (Qceiling q)).
  pose proof (total_delta_decay (Z.to_nat (Qceiling q))) as Hdecay.
  pose proof (total_delta_nonneg (Z.to_nat (Qceiling q))) as Hk.
  assert (Hn : q <= inject_Z (Z.of_nat (Z.to_nat (Qceiling q)))).
  { eapply Qle_trans; [apply Qle_ceiling|]. rewrite <- Zle_Qle. lia. }
  assert (Hq : total_delta nc d 0 == q * (eps * (1 - d))).
  { unfold q. field. split; lra. }
  assert (Hn0 : 0 <= inject_Z (Z.of_nat (Z.to_nat (Qceiling q)))).
  { change 0 with (inject_Z 0). rewrite <- Zle_Qle. lia. }
  revert Hdecay Hk Hn Hn0 Hq.
  generalize (total_delta nc d (Z.to_nat (Qceiling q))), (total_delta nc d 0),
    (inject_Z (Z.of_nat (Z.to_nat (Qceiling q)))).
  clearbody q. intros a c n Hdecay Hk Hn Hn0 Hq.
  rewrite Hq in Hdecay. clear Hq.
  destruct (Qlt_le_dec eps a) as [Hbig|Hsmall]; [|exact Hsmall].
  exfalso.
  assert (Hnx : 0 <= n * (1 - d)) by (apply Qmult_le_0_compat; lra).
  assert (H1 : eps * (1 + n * (1 - d)) < a * (1 + n * (1 - d))).
  { apply Qmult_lt_compat_r; [lra | exact Hbig]. }
  assert (H2 : q * (1 - d) <= n * (1 - d)).
  { apply Qmult_le_compat_r; [exact Hn | lra]. }
  assert (H3 : eps * (q * (1 - d)) <= eps * (n * (1 - d))).
  { apply Qmult_le_nonneg_l; [lra | exact H2]. }
  lra.
Qed.

End Iterates.

(** ** The convergence test in exact arithmetic *)

Lemma pymax_fold (l : list Q) (x : Q) :
  let m := fold_left (fun m y => if flt m y then y else m) l x in
  In m (x :: l) /\ forall y, In y (x :: l) -> y <= m.
Proof.
  revert x. induction l as [|z l IH]; intros x; cbn [fold_left].
  - split; [now left|]. intros y [<-|[]]. apply Qle_refl.
  - qnum. destruct (Qle_bool z x) eqn:E; cbn [negb].
    + destruct (IH x) as [Hin Hmax]. split.
      * destruct Hin as [<-|Hin]; [now left | right; now right].
      * intros y [<-|[<-|Hy]].
        -- apply Hmax. now left.
        -- apply Qle_bool_iff in E. eapply Qle_trans; [exact E|].
           apply Hmax. now left.
        -- apply Hmax. now right.
    + destruct (IH z) as [Hin Hmax]. split.
      * now right.
      * intros y [<-|[<-|Hy]].
        -- assert (Hlt : ~ z <= x).
           { intros H. apply Qle_bool_iff in H. congruence. }
           apply Qnot_le_lt in Hlt. apply Qlt_le_weak in Hlt.
           eapply Qle_trans; [exact Hlt|]. apply Hmax. now left.
        -- apply Hmax. now left.
        -- apply Hmax. now right.
Qed.

(** [max] of a non-empty list returns an element of it that is at least
    every element. *)
Lemma pymax_spec (l : list Q) :
  l <> [] -> exists m, pymax l = Ok m /\ In m l /\ forall y, In y l -> y <= m.
Proof.
  destruct l as [|x l]; [congruence|]. intros _.
  eexists. split; [reflexivity|]. apply pymax_fold.
Qed.

Lemma In_le_Qsum (l : list Q) (x : Q) :
  (forall y, In y l -> 0 <= y) -> In x l -> x <= Qsum l.
Proof.
  induction l as [|z l IH]; intros Hpos Hin; [contradiction|]. simpl.
  assert (Hz : 0 <= z) by (apply Hpos; now left).
  assert (Hs : 0 <= Qsum l).
  { apply Qsum_nonneg. intros y Hy. apply Hpos. now right. }
  destruct Hin as [<-|Hin]; [lra|].
  assert (x <= Qsum l).
  { apply IH; [|assumption]. intros y Hy. apply Hpos. now right. }
  lra.
Qed.

Lemma deltas_nonneg (nc : pydict pyset) (a b : pydict Q) (x : Q) :
  In x (deltas nc a b) -> 0 <= x.
Proof.
  unfold deltas. intros Hx. apply in_map_iff in Hx.
  destruct Hx as [p [<- _]]. qnum. apply Qabs_nonneg.
Qed.

Lemma tolerance_Q : tolerance == 1 # 1000.
Proof. reflexivity. Qed.

Lemma converged_eventually (nc : pydict pyset) (d : Q) :
  proper_graph nc -> nc <> [] -> 0 <= d -> d < 1 ->
  exists k, converged k nc d = true.
Proof.
  intros Hprop Hne Hd0 Hd1.
  assert (Hsmall : exists k, total_delta nc d k <= 1 # 1000).
  { apply total_delta_small; solve [assumption | lra | reflexivity]. }
  destruct Hsmall as [k Hk].
  exists k. unfold converged.
  assert (Hnz : deltas nc (rank_iter k nc d) (rank_iter (S k) nc d) <> [])
    by (apply deltas_nonempty; assumption).
  destruct (pymax_spec Hnz) as [m [Hm [Hin _]]].
  rewrite Hm. qnum. apply Qle_bool_iff. rewrite tolerance_Q.
  eapply Qle_trans; [|exact Hk]. unfold total_delta.
  apply In_le_Qsum; [|exact Hin]. intros y Hy. eapply deltas_nonneg; eassumption.
Qed.

(** ** The claims about [iterate_pagerank] *)

(** C2. On a non-empty graph and with a damping factor strictly between 0 and
    1, [iterate_pagerank] works on the normalized graph, in which a page
    without outlinks has every page as outlink and every other page keeps its
    outlinks; the ranks start at [1/N]; every round computes, for every page
    [p], [(1-d)/N + d * sum of rank(q)/outdegree(q)] over the pages [q] whose
    normalized outlink set contains [p], where [rank] is the mapping of the
    previous round only; and what the function returns is the mapping of one
    of these rounds. *)
Theorem iterate_pagerank_recurrence (corpus : pydict pyset) (d : Q) :
  well_formed corpus = true -> corpus <> [] -> 0 < d -> d < 1 ->
  keys (normalize corpus) = keys corpus /\
  (forall p links, In (p, links) corpus ->
     getitem (normalize corpus) p
     = Ok (if (len links =? 0)%Z then keys corpus else links)) /\
  (exists pr0, page_rank_after 0 corpus d = Ok pr0 /\
     keys pr0 = keys corpus /\
     forall p, In p (keys corpus) ->
       getitem pr0 p = Ok (1 / inject_Z (len corpus))) /\
  (forall k, exists pr pr',
     page_rank_after k corpus d = Ok pr /\
     page_rank_after (S k) corpus d = Ok pr' /\
     round (normalize corpus) d (len (normalize corpus)) pr = Ok pr' /\
     keys pr' = keys corpus /\
     forall p, In p (keys corpus) ->
       exists v, getitem pr' p = Ok v /\
                 v == new_rank (normalize corpus) d (rank_of pr) p) /\
  (forall fuel pr, iterate_pagerank fuel corpus d = Some (Ok pr) ->
     exists k, page_rank_after (S k) corpus d = Ok pr).
Proof.
  intros Hwf Hne Hd0 Hd1.
  pose proof (well_formed_keys _ Hwf) as Hnd.
  pose proof (normalized_proper Hwf Hne) as Hprop.
  pose proof (normalized_nonempty Hne) as Hne'.
  rewrite normalize_normalized by assumption.
  split; [apply keys_normalized|].
  split.
  { intros p links Hin. apply getitem_In.
    - now rewrite keys_normalized.
    - unfold normalized.
      apply (in_map (fun kv => (fst kv, if (len (snd kv) =? 0)%Z
                                        then keys corpus else snd kv)) _ _ Hin). }
  split.
  { exists (rank_iter 0 (normalized corpus) d).
    split; [now apply page_rank_after_Ok|].
    split; [now rewrite keys_rank_iter, keys_normalized|].
    intros p Hp. cbn [rank_iter]. unfold first_rank.
    rewrite getitem_map by now rewrite keys_normalized.
    now rewrite len_normalized. }
  split.
  { intros k. exists (rank_iter k (normalized corpus) d).
    exists (rank_iter (S k) (normalized corpus) d).
    split; [now apply page_rank_after_Ok|].
    split; [now apply page_rank_after_Ok|].
    split.
    { cbn [rank_iter]. apply round_Ok; try assumption.
      - rewrite keys_rank_iter. apply Hprop.
      - rewrite keys_rank_iter. apply incl_refl. }
    split; [now rewrite keys_rank_iter, keys_normalized|].
    intros p Hp. exists (rank_of (rank_iter (S k) (normalized corpus) d) p).
    split.
    - apply rank_of_getitem. now rewrite keys_rank_iter, keys_normalized.
    - cbn [rank_iter]. apply rank_of_next_rank.
      now rewrite keys_rank_iter, keys_normalized. }
  intros fuel pr Hrun. rewrite iterate_pagerank_loop in Hrun by assumption.
  apply iterate_loop_result in Hrun; try assumption.
  destruct Hrun as [k [_ [_ Hr]]].
  injection Hr as ->. exists k.
  apply (@page_rank_after_Ok _ _ (S k)); assumption.
Qed.




(** C10. On a non-empty graph, with a damping factor strictly between 0 and
    1, [iterate_pagerank] returns, and every value of the mapping it returns
    is at least [(1-d)/N], hence strictly positive (in exact arithmetic). *)
Theorem iterate_pagerank_floor (corpus : pydict pyset) (d : Q) :
  well_formed corpus = true -> corpus <> [] -> 0 < d -> d < 1 ->
  (exists fuel pr, iterate_pagerank fuel corpus d = Some (Ok pr)) /\
  (forall fuel pr, iterate_pagerank fuel corpus d = Some (Ok pr) ->
     keys pr = keys corpus /\
     forall p v, In (p, v) pr ->
       (1 - d) / inject_Z (len corpus) <= v /\ 0 < v).
Proof.
  intros Hwf Hne Hd0 Hd1.
  pose proof (well_formed_keys _ Hwf) as Hnd.
  pose proof (normalized_proper Hwf Hne) as Hprop.
  pose proof (normalized_nonempty Hne) as Hne'.
  split.
  - destruct (@converged_eventually (normalized corpus) d) as [n Hn];
      try assumption; try lra.
    destruct (@iterate_loop_reaches _ _ (normalized corpus) d Hprop Hne' n 0%nat Hn)
      as [k [_ [_ Hrun]]].
    exists (S k), (rank_iter (S k) (normalized corpus) d).
    rewrite iterate_pagerank_loop by assumption. apply Hrun. lia.
  - intros fuel pr Hrun. rewrite iterate_pagerank_loop in Hrun by assumption.
    apply iterate_loop_result in Hrun; try assumption.
    destruct Hrun as [k [_ [_ Hr]]].
    assert (Hpr : pr = rank_iter (S k) (normalized corpus) d) by congruence.
    clear Hr. subst pr.
    split; [now rewrite keys_rank_iter, keys_normalized|].
    intros p v Hin.
    assert (Hkeys : NoDup (keys (rank_iter (S k) (normalized corpus) d))).
    { rewrite keys_rank_iter. apply Hprop. }
    assert (Hp : In p (keys (normalized corpus))).
    { rewrite <- (keys_rank_iter (S k) (normalized corpus) d).
      change p with (fst (p, v)). unfold keys. now apply in_map. }
    assert (Hv : rank_of (rank_iter (S k) (normalized corpus) d) p = v).
    { unfold rank_of. now rewrite (getitem_In _ _ _ Hkeys Hin). }
    assert (Hfloor : (1 - d) / inject_Z (len corpus) <= v).
    { rewrite <- Hv, <- len_normalized.
      apply rank_iter_floor; try assumption; lra. }
    split; [exact Hfloor|].
    eapply Qlt_le_trans; [|exact Hfloor].
    apply Qlt_shift_div_l; [apply len_pos; assumption | lra].
Qed.

(** ** The per-round maximum difference is not monotone *)


(** The same two rounds in binary64, with [0.85] the double nearest to it:
    the second maximum is again the larger. *)
Lemma max_delta_not_monotone_binary64 :
  non_increasing (iterate_deltas 2 tree7 0x1.b333333333333p-1%float) = false.
Proof.
  vm_compute. reflexivity.
Qed.


(** ** The sampling estimator *)

Section DictUpdate.

Context {V : Type}.

Lemma getitem_setitem_same (d : pydict V) (k : pagename) (v : V) :
  getitem (setitem d k v) k = Ok v.
Proof.
  induction d as [|[k' v'] d IH]; simpl.
  - now rewrite String.eqb_refl.
  - destruct (String.eqb_spec k' k) as [->|Hne]; simpl.
    + now rewrite String.eqb_refl.
    + destruct (String.eqb_spec k' k); [contradiction | exact IH].
Qed.

Lemma getitem_setitem_other (d : pydict V) (k k' : pagename) (v : V) :
  k <> k' -> getitem (setitem d k v) k' = getitem d k'.
Proof.
  intros Hne. induction d as [|[k0 v0] d IH]; simpl.
  - destruct (String.eqb_spec k k'); [contradiction | reflexivity].
  - destruct (String.eqb_spec k0 k) as [->|Hne0]; simpl.
    + destruct (String.eqb_spec k k'); [contradiction | reflexivity].
    + now rewrite IH.
Qed.

(** A loop that stores one entry per element, under keys that are all new. *)
Lemma comprehension_items {A : Type} (key : A -> pagename) (f : A -> V)
    (body : A -> pydict V -> result (pydict V)) (l : list A) (acc : pydict V) :
  NoDup (keys acc ++ map key l) ->
  (forall x acc', In x l -> body x acc' = Ok (setitem acc' (key x) (f x))) ->
  for_in l body acc = Ok (acc ++ map (fun x => (key x, f x)) l).
Proof.
  revert acc. induction l as [|x l IH]; intros acc Hnd Hbody; simpl.
  - now rewrite app_nil_r.
  - rewrite (Hbody x acc (or_introl eq_refl)). simpl.
    assert (Hfresh : ~ In (key x) (keys acc)).
    { intros Hin. simpl in Hnd. apply NoDup_remove_2 in Hnd. apply Hnd.
      apply in_or_app. now left. }
    rewrite setitem_fresh by assumption.
    rewrite IH.
    + now rewrite <- app_assoc.
    + rewrite keys_app. simpl in *. now rewrite <- app_assoc.
    + intros y acc' Hy. apply Hbody. now right.
Qed.

End DictUpdate.

Lemma Zsum_setitem (d : pydict Z) (k : pagename) (old v : Z) :
  getitem d k = Ok old ->
  Zsum (values (setitem d k v)) = (Zsum (values d) - old + v)%Z.
Proof.
  induction d as [|[k' v'] d IH]; simpl; [discriminate|].
  destruct (String.eqb_spec k' k) as [->|Hne]; simpl.
  - intros H. injection H as ->. lia.
  - intros H. rewrite (IH H). lia.
Qed.

Lemma Zsum_indicator (page : pagename) (ks : list pagename) :
  NoDup ks -> In page ks ->
  Zsum (map (fun p => if String.eqb p page then 1 else 0)%Z ks) = 1%Z.
Proof.
  induction ks as [|k ks IH]; intros Hnd Hin; [contradiction|].
  inversion Hnd as [|? ? Hnotin Hnd']; subst. simpl.
  destruct (String.eqb_spec k page) as [->|Hne].
  - assert (Hz : Zsum (map (fun p => if String.eqb p page then 1 else 0)%Z ks)
                 = 0%Z).
    { clear IH Hin Hnd Hnd'. induction ks as [|k ks IH]; [reflexivity|]. simpl.
      destruct (String.eqb_spec k page) as [->|Hne].
      - exfalso. apply Hnotin. now left.
      - rewrite IH; [reflexivity|]. intros H. apply Hnotin. now right. }
    rewrite Hz. reflexivity.
  - destruct Hin as [Heq|Hin]; [contradiction|]. now rewrite IH.
Qed.

Section Sampler.

Context {F : Type} {NumF : Num F}.

Lemma transform_model_from (tm : pydict F) (ks : list pagename)
    (acc : pydict (F * F)) (threshold : F) :
  incl ks (keys tm) -> NoDup (keys acc ++ ks) ->
  exists acc' threshold',
    for_in ks (transform_step tm) (acc, threshold) = Ok (acc', threshold') /\
    keys acc' = keys acc ++ ks.
Proof.
  revert acc threshold.
  induction ks as [|k ks IH]; intros acc threshold Hincl Hnd; simpl.
  - exists acc, threshold. now rewrite app_nil_r.
  - destruct (getitem_keys tm k (Hincl k (or_introl eq_refl))) as [v Hv].
    unfold transform_step at 1. rewrite Hv. simpl.
    assert (Hfresh : ~ In k (keys acc)).
    { intros Hin. apply NoDup_remove_2 in Hnd. apply Hnd.
      apply in_or_app. now left. }
    rewrite setitem_fresh by assumption.
    destruct (IH (acc ++ [(k, (threshold, fadd threshold v))])
                (fadd threshold v)) as [acc' [th' [Hrun Hkeys]]].
    + intros x Hx. apply Hincl. now right.
    + rewrite keys_app. simpl. now rewrite <- app_assoc.
    + exists acc', th'. split; [exact Hrun|].
      rewrite Hkeys, keys_app. simpl. now rewrite <- app_assoc.
Qed.

(** [transform_model] keeps the pages of the distribution, in order. *)
Lemma transform_model_Ok (tm : pydict F) :
  NoDup (keys tm) ->
  exists t, transform_model tm = Ok t /\ keys t = keys tm.
Proof.
  intros Hnd. unfold transform_model. cbv zeta.
  destruct (@transform_model_from tm (keys tm) [] (of_int 0))
    as [acc' [th' [Hrun Hkeys]]]; [apply incl_refl | exact Hnd |].
  rewrite Hrun. simpl. now exists acc'.
Qed.

(** The drawn page is a page of the model, or the current page. *)
Lemma draw_page_Ok (model : pydict (F * F)) (ps : list pagename) (r : F)
    (page : pagename) :
  incl ps (keys model) ->
  exists page', draw_page model ps r page = Ok page' /\
                (In page' ps \/ page' = page).
Proof.
  induction ps as [|p ps IH]; intros Hincl; simpl.
  - exists page. auto.
  - destruct (getitem_keys model p (Hincl p (or_introl eq_refl))) as [lh Hlh].
    rewrite Hlh. simpl.
    destruct (fle (fst lh) r && flt r (snd lh)).
    + exists p. auto.
    + destruct IH as [page' [Hrun Hin]].
      * intros x Hx. apply Hincl. now right.
      * exists page'. split; [exact Hrun|]. destruct Hin; auto.
Qed.

Lemma sample_step_inv (corpus : pydict pyset) (d : F) (g : rng) (j : nat)
    (st : sampler) (i : Z) :
  NoDup (keys corpus) -> sampler_inv corpus st i ->
  exists st', sample_step corpus d g j st = Ok st' /\
              sampler_inv corpus st' (i + 1).
Proof.
  intros Hnd [Hcur [Hsk [Hsum [Hmk Hcache]]]]. unfold sample_step.
  assert (Hmodels : exists models' t,
             memoize corpus d (models st) (cur st) = Ok models' /\
             getitem models' (cur st) = Ok (Some t) /\
             keys models' = keys corpus /\
             forall p t', getitem models' p = Ok (Some t') ->
                          keys t' = keys corpus).
  { unfold memoize.
    destruct (getitem_keys (models st) (cur st)) as [cached Hcached];
      [now rewrite Hmk|].
    rewrite Hcached. simpl. destruct cached as [t|].
    - exists (models st), t. auto.
    - destruct (getitem_keys corpus (cur st) Hcur) as [links Hlinks].
      rewrite (@transition_model_Ok _ _ corpus (cur st) links d Hnd Hlinks). simpl.
      destruct (@transform_model_Ok
                  (map (fun q => (q, transition_value corpus links d q))
                     (keys corpus))) as [t [Ht Hkt]].
      { now rewrite keys_map_pair. }
      rewrite Ht. simpl. rewrite keys_map_pair in Hkt.
      exists (setitem (models st) (cur st) (Some t)), t.
      split; [reflexivity|].
      split; [apply getitem_setitem_same|].
      split; [rewrite keys_setitem_In; [exact Hmk | now rewrite Hmk]|].
      intros p t' Hp. destruct (String.eqb_spec (cur st) p) as [<-|Hne].
      + rewrite getitem_setitem_same in Hp. injection Hp as <-. exact Hkt.
      + rewrite getitem_setitem_other in Hp by assumption.
        eapply Hcache; eassumption. }
  destruct Hmodels as [models' [t [Hrun [Hget [Hmk' Hcache']]]]].
  rewrite Hrun. simpl. rewrite Hget. simpl.
  pose proof (Hcache' _ _ Hget) as Hkt.
  destruct (@draw_page_Ok t (keys t) (random g j) (cur st) (incl_refl _))
    as [page' [Hdraw Hpage']].
  rewrite Hdraw. simpl.
  assert (Hin : In page' (keys corpus)).
  { destruct Hpage' as [H| ->]; [now rewrite <- Hkt | exact Hcur]. }
  destruct (getitem_keys (sample st) page') as [c Hc]; [now rewrite Hsk|].
  rewrite Hc. simpl. eexists. split; [reflexivity|].
  unfold sampler_inv. cbn [cur sample models].
  split; [exact Hin|].
  split; [rewrite keys_setitem_In; [exact Hsk | now rewrite Hsk]|].
  split; [rewrite (@Zsum_setitem _ _ c (c + 1)%Z Hc), Hsum; lia|].
  split; [exact Hmk' | exact Hcache'].
Qed.

Lemma sample_loop_inv (corpus : pydict pyset) (d : F) (g : rng)
    (js : list nat) (st : sampler) (i : Z) :
  NoDup (keys corpus) -> sampler_inv corpus st i ->
  exists st', for_in js (sample_step corpus d g) st = Ok st' /\
              sampler_inv corpus st' (i + Z.of_nat (List.length js)).
Proof.
  intros Hnd. revert st i. induction js as [|j js IH]; intros st i Hinv.
  - exists st. split; [reflexivity|]. simpl. now rewrite Z.add_0_r.
  - destruct (sample_step_inv d g j Hnd Hinv) as [st1 [Hstep Hinv1]].
    destruct (IH st1 (i + 1)%Z Hinv1) as [st' [Hrun Hinv']].
    exists st'. split.
    + cbn [for_in]. rewrite Hstep. exact Hrun.
    + replace (i + Z.of_nat (List.length (j :: js)))%Z
        with (i + 1 + Z.of_nat (List.length js))%Z; [exact Hinv'|].
      cbn [List.length]. lia.
Qed.

(** The visit counts add up to [n + 1]: the starting page is counted once,
    and each of the [n] passes through the loop counts one more page. *)
Lemma sample_counts_total (corpus : pydict pyset) (d : F) (n : Z) (g : rng) :
  well_formed corpus = true -> corpus <> [] -> (0 <= n)%Z ->
  exists counts,
    sample_counts corpus d n g = Ok counts /\
    keys counts = keys corpus /\
    Zsum (values counts) = (n + 1)%Z.
Proof.
  intros Hwf Hne Hn. pose proof (well_formed_keys _ Hwf) as Hnd.
  unfold sample_counts.
  assert (Hchoice : exists page, choice g (keys corpus) = Ok page /\
                                 In page (keys corpus)).
  { unfold choice. destruct (keys corpus) as [|p ks] eqn:E.
    - destruct corpus; [congruence | discriminate].
    - eexists. split; [reflexivity|]. apply nth_In.
      apply Nat.mod_upper_bound. discriminate. }
  destruct Hchoice as [page [Hpage Hin]]. rewrite Hpage. cbn [bind].
  rewrite (fold_setitem (fun p => if String.eqb p page then 1 else 0)%Z)
    by exact Hnd.
  rewrite (fold_setitem (fun _ => None)) by exact Hnd. cbn [app].
  destruct (@sample_loop_inv corpus d g (seq 0 (Z.to_nat n))
              {| cur := page;
                 sample := map (fun p : pagename =>
                                  (p, if String.eqb p page then 1 else 0)%Z)
                             (keys corpus);
                 models := map (fun p => (p, None)) (keys corpus) |} 0%Z Hnd)
    as [st [Hrun [_ [Hsk [Hsum _]]]]].
  { unfold sampler_inv. simpl.
    split; [exact Hin|].
    split; [apply keys_map_pair|].
    split; [rewrite values_map_pair; now apply Zsum_indicator|].
    split; [apply keys_map_pair|].
    intros p t Hp. apply getitem_Ok_In in Hp. apply in_map_iff in Hp.
    destruct Hp as [q [Hq _]]. discriminate. }
  rewrite Hrun. cbn [bind]. exists (sample st).
  split; [reflexivity|]. split; [exact Hsk|].
  rewrite Hsum, length_seq. lia.
Qed.

End Sampler.

Lemma sample_pagerank_Ok {F : Type} {NumF : Num F} (corpus : pydict pyset)
    (d : F) (n : Z) (g : rng) (counts : pydict Z) :
  sample_counts corpus d n g = Ok counts -> NoDup (keys counts) -> n <> 0%Z ->
  sample_pagerank corpus d n g
  = Ok (map (fun kv => (fst kv, fdiv (of_int (snd kv)) (of_int n))) counts).
Proof.
  intros Hcounts Hnd Hn. unfold sample_pagerank. rewrite Hcounts. cbn [bind].
  apply (comprehension_items fst
           (fun kv : pagename * Z => fdiv (of_int (snd kv)) (of_int n)) _ counts []).
  - exact Hnd.
  - intros kv acc _. unfold truediv.
    destruct (n =? 0)%Z eqn:E; [|reflexivity].
    apply Z.eqb_eq in E. contradiction.
Qed.

Lemma Qsum_counts (counts : pydict Z) (n : Q) :
  ~ n == 0 ->
  Qsum (map (fun kv : pagename * Z => inject_Z (snd kv) / n) counts)
  == inject_Z (Zsum (values counts)) / n.
Proof.
  intros Hn. induction counts as [|[k c] counts IH]; simpl.
  - field. exact Hn.
  - rewrite IH, inject_Z_plus. field. exact Hn.
Qed.

(** In exact arithmetic the returned values add up to [(n+1)/n]. *)
Lemma sample_pagerank_total (corpus : pydict pyset) (d : Q) (n : Z) (g : rng) :
  well_formed corpus = true -> corpus <> [] -> (1 <= n)%Z ->
  exists counts result,
    sample_counts corpus d n g = Ok counts /\
    Zsum (values counts) = (n + 1)%Z /\
    sample_pagerank corpus d n g = Ok result /\
    keys result = keys corpus /\
    Qsum (values result) == inject_Z (n + 1) / inject_Z n.
Proof.
  intros Hwf Hne Hn.
  destruct (@sample_counts_total _ _ corpus d n g Hwf Hne) as
    [counts [Hcounts [Hkeys Hsum]]]; [lia|].
  exists counts. eexists.
  split; [exact Hcounts|]. split; [exact Hsum|].
  split.
  { apply sample_pagerank_Ok; [exact Hcounts | | lia].
    rewrite Hkeys. now apply well_formed_keys. }
  split.
  { unfold keys. rewrite map_map. exact Hkeys. }
  unfold values. rewrite map_map. cbn [snd]. qnum.
  rewrite Qsum_counts, Hsum; [reflexivity|].
  intros H. unfold Qeq in H. simpl in H. lia.
Qed.

Lemma succ_ratio_not_one (n : Z) :
  (1 <= n)%Z -> ~ inject_Z (n + 1) / inject_Z n == 1.
Proof.
  intros Hn H.
  assert (Hpos : 0 < inject_Z n).
  { change 0 with (inject_Z 0). rewrite <- Zlt_Qlt. lia. }
  rewrite inject_Z_plus in H. change (inject_Z 1) with 1 in H.
  revert H Hpos. generalize (inject_Z n). intros x H Hx.
  assert (Heq : x + 1 == (x + 1) / x * x) by (field; lra).
  rewrite H in Heq. lra.
Qed.

(** C3, as the code behaves. On a non-empty graph, for [n >= 1] and whatever
    the random source, [sample_pagerank] returns; its visit counts add up to
    [n + 1], not [n] (the starting page is counted, and then all [n] passes of
    the loop count a page each), and the returned values add up to
    [(n+1)/n], which is not 1. *)
Theorem sample_pagerank_counts_one_too_many (corpus : pydict pyset) (d : Q)
    (n : Z) (g : rng) :
  well_formed corpus = true -> corpus <> [] -> (1 <= n)%Z ->
  exists counts result,
    sample_counts corpus d n g = Ok counts /\
    Zsum (values counts) = (n + 1)%Z /\
    sample_pagerank corpus d n g = Ok result /\
    Qsum (values result) == inject_Z (n + 1) / inject_Z n /\
    ~ Qsum (values result) == 1.
Proof.
  intros Hwf Hne Hn.
  destruct (sample_pagerank_total d g Hwf Hne Hn)
    as [counts [result [Hcounts [Hsum [Hres [_ Hvalues]]]]]].
  exists counts, result. repeat split; try assumption.
  rewrite Hvalues. now apply succ_ratio_not_one.
Qed.

(** C6, as the code behaves. On a graph of one page without outlinks, for
    [n >= 1] and whatever the random source, [sample_pagerank] maps the page to
    [(n+1)/n], which is not 1; [iterate_pagerank] returns after one round and
    maps the page to 1 (in exact arithmetic). *)
Theorem single_page_results (a : pagename) (d : Q) (n : Z) (g : rng) :
  (1 <= n)%Z -> 0 < d -> d < 1 ->
  (exists v, sample_pagerank [(a, [])] d n g = Ok [(a, v)] /\
             v == inject_Z (n + 1) / inject_Z n /\ ~ v == 1) /\
  (exists v, (forall fuel,
                iterate_pagerank (S fuel) [(a, [])] d = Some (Ok [(a, v)])) /\
             v == 1).
Proof.
  intros Hn Hd0 Hd1. split.
  - destruct (@sample_pagerank_total [(a, [])] d n g eq_refl) as
      [counts [result [_ [_ [Hres [Hkeys Hsum]]]]]]; [discriminate | exact Hn |].
    destruct result as [|[k v] [|kv result]]; try discriminate.
    cbn in Hkeys. injection Hkeys as ->. cbn in Hsum.
    exists v. split; [exact Hres|].
    assert (Hv : v == inject_Z (n + 1) / inject_Z n).
    { rewrite <- Hsum. ring. }
    split; [exact Hv|]. rewrite Hv. now apply succ_ratio_not_one.
  - set (c := [(a, [])] : pydict pyset).
    assert (Hwf : well_formed c = true) by reflexivity.
    assert (Hinv : graph_invariant c = true) by reflexivity.
    assert (Hne : c <> []) by discriminate.
    pose proof (normalized_proper Hwf Hne) as Hprop.
    pose proof (normalized_nonempty Hne) as Hne'.
    assert (Hone : forall k, rank_of (rank_iter k (normalized c) d) a == 1).
    { intros k. 
      assert (Hsum : Qsum (map (rank_of (rank_iter k (normalized c) d))
                             (keys (normalized c))) == 1).
      { apply rank_iter_sum; try assumption.
        now apply normalized_closed. }
      change (keys (normalized c)) with [a] in Hsum.
      cbn [map Qsum fold_right] in Hsum.
      rewrite <- Hsum. ring. }
    assert (Hconv : converged 0 (normalized c) d = true).
    { unfold converged.
      change (deltas (normalized c) (rank_iter 0 (normalized c) d)
                (rank_iter 1 (normalized c) d))
        with [Qabs (rank_of (rank_iter 0 (normalized c) d) a
                    - rank_of (rank_iter 1 (normalized c) d) a)].
      cbn [pymax fold_left]. qnum. apply Qle_bool_iff.
      rewrite (Hone 0%nat), (Hone 1%nat), tolerance_Q.
      setoid_replace (1 - 1) with 0 by ring. discriminate. }
    exists (rank_of (rank_iter 1 (normalized c) d) a). split.
    + intros fuel. rewrite iterate_pagerank_loop by assumption.
      rewrite iterate_loop_step by assumption. rewrite Hconv.
      cbn [rank_iter next_rank first_rank normalized c map keys fst].
      unfold rank_of. cbn [getitem]. rewrite String.eqb_refl. reflexivity.
    + apply Hone.
Qed.

(** ** The theorems at concrete inputs *)

Lemma transition_model_distribution_witness :
  well_formed g3 = true /\ graph_invariant g3 = true /\
  In "B"%string (keys g3) /\ 0 < 85 # 100 /\ 85 # 100 < 1 /\
  exists links tm,
    getitem g3 "B" = Ok links /\
    transition_model g3 "B" (85 # 100) = Ok tm /\
    keys tm = keys g3 /\
    (forall q, In q (keys g3) ->
       getitem tm q
       = Ok (if (len links =? 0)%Z then 1 / inject_Z (len g3)
             else (if contains links q then (85 # 100) / inject_Z (len links)
                   else 0)
                  + (1 - (85 # 100)) / inject_Z (len g3))) /\
    Qsum (values tm) == 1.
Proof.
  assert (Hin : In "B"%string (keys g3)) by (simpl; auto).
  repeat (split; [first [reflexivity | exact Hin]|]).
  exact (@transition_model_distribution g3 "B" (85 # 100)
           eq_refl eq_refl Hin eq_refl eq_refl).
Defined.

Lemma transition_model_KeyError_witness :
  ~ In "Z"%string (keys g3) /\
  transition_model g3 "Z" (85 # 100) = Raise KeyError.
Proof.
  assert (Hnotin : ~ In "Z"%string (keys g3)).
  { simpl. intros [H|[H|[H|[]]]]; discriminate. }
  split; [exact Hnotin|].
  exact (@transition_model_KeyError Q QNum g3 "Z" (85 # 100) Hnotin).
Defined.

Lemma iterate_pagerank_recurrence_witness :
  well_formed g3 = true /\ g3 <> [] /\ 0 < 85 # 100 /\ 85 # 100 < 1 /\
  forall k, exists pr pr',
    page_rank_after k g3 (85 # 100) = Ok pr /\
    page_rank_after (S k) g3 (85 # 100) = Ok pr' /\
    round (normalize g3) (85 # 100) (len (normalize g3)) pr = Ok pr' /\
    keys pr' = keys g3 /\
    forall p, In p (keys g3) ->
      exists v, getitem pr' p = Ok v /\
                v == new_rank (normalize g3) (85 # 100) (rank_of pr) p.
Proof.
  assert (Hne : g3 <> []) by discriminate.
  repeat (split; [first [reflexivity | exact Hne]|]).
  exact (proj1 (proj2 (proj2 (proj2
           (@iterate_pagerank_recurrence g3 (85 # 100)
              eq_refl Hne eq_refl eq_refl))))).
Defined.



Lemma iterate_pagerank_floor_witness :
  well_formed g3 = true /\ g3 <> [] /\ 0 < 85 # 100 /\ 85 # 100 < 1 /\
  (exists fuel pr, iterate_pagerank fuel g3 (85 # 100) = Some (Ok pr)) /\
  (forall fuel pr, iterate_pagerank fuel g3 (85 # 100) = Some (Ok pr) ->
     keys pr = keys g3 /\
     forall p v, In (p, v) pr ->
       (1 - (85 # 100)) / inject_Z (len g3) <= v /\ 0 < v).
Proof.
  assert (Hne : g3 <> []) by discriminate.
  repeat (split; [first [reflexivity | exact Hne]|]).
  exact (@iterate_pagerank_floor g3 (85 # 100) eq_refl Hne eq_refl eq_refl).
Defined.


Lemma sample_pagerank_counts_one_too_many_witness :
  well_formed g3 = true /\ g3 <> [] /\ (1 <= 5)%Z /\
  exists counts result,
    sample_counts g3 (85 # 100) 5 rng_sevenths = Ok counts /\
    Zsum (values counts) = (5 + 1)%Z /\
    sample_pagerank g3 (85 # 100) 5 rng_sevenths = Ok result /\
    Qsum (values result) == inject_Z (5 + 1) / inject_Z 5 /\
    ~ Qsum (values result) == 1.
Proof.
  assert (Hne : g3 <> []) by discriminate.
  assert (Hn : (1 <= 5)%Z) by discriminate.
  repeat (split; [first [reflexivity | exact Hne | exact Hn]|]).
  exact (@sample_pagerank_counts_one_too_many g3 (85 # 100) 5 rng_sevenths
           eq_refl Hne Hn).
Defined.

Lemma single_page_results_witness :
  (1 <= 1)%Z /\ 0 < 85 # 100 /\ 85 # 100 < 1 /\
  (exists v, sample_pagerank [("a"%string, [])] (85 # 100) 1 rng_sevenths
             = Ok [("a"%string, v)] /\
             v == inject_Z (1 + 1) / inject_Z 1 /\ ~ v == 1) /\
  (exists v, (forall fuel,
                iterate_pagerank (S fuel) [("a"%string, [])] (85 # 100)
                = Some (Ok [("a"%string, v)])) /\
             v == 1).
Proof.
  assert (Hn : (1 <= 1)%Z) by discriminate.
  repeat (split; [first [reflexivity | exact Hn]|]).
  exact (@single_page_results "a" (85 # 100) 1 rng_sevenths
           Hn eq_refl eq_refl).
Defined.

(** The off-by-one at work, in exact arithmetic and in binary64: one sample
    asked of a single-page graph yields the rank 2. *)
Lemma sample_single_page :
  sample_pagerank [("a"%string, [])] (85 # 100) 1 rng_sevenths
  = Ok [("a"%string, 2 # 1)] /\
  sample_pagerank [("a"%string, [])] 0x1.b333333333333p-1%float 1
    {| choice_index := 0; random := fun _ => 0x1p-1%float |}
  = Ok [("a"%string, 0x1p+1%float)].
Proof.
  split; vm_compute; reflexivity.
Qed.

(** ** Calls leave the objects of the caller alone *)

Module StoreFrame.

Import Store.

Section Rules.

Context {F : Type} {NumF : Num F}.

Lemma frame_ret (n : nat) {A : Type} (a : A) : frame (F:=F) n (ret a).
Proof.
  intros h a' h' _ H. unfold ret in H. injection H as <- <-. auto.
Qed.

Lemma frame_lift (n : nat) {A : Type} (r : result A) : frame (F:=F) n (lift r).
Proof.
  intros h a h' _ H. unfold lift in H. destruct r; [|discriminate].
  injection H as <- <-. auto.
Qed.

Lemma frame_load (n a : nat) : frame (F:=F) n (load a).
Proof.
  intros h o h' _ H. unfold load in H.
  destruct (nth_error h a); [|discriminate]. injection H as <- <-. auto.
Qed.

Lemma frame_new (n : nat) (o : object) : frame (F:=F) n (new o).
Proof.
  intros h a h' Hn H. unfold new in H. injection H as <- <-. split.
  - rewrite firstn_app. replace (n - List.length h)%nat with 0%nat by lia.
    simpl. apply app_nil_r.
  - rewrite length_app. lia.
Qed.

Lemma update_length (h : @store F) (a : nat) (o : object) :
  List.length (update h a o) = List.length h.
Proof.
  revert a. induction h as [|o' h IH]; intros [|a]; simpl; auto.
Qed.

Lemma update_firstn (n : nat) (h : @store F) (a : nat) (o : object) :
  (n <= a)%nat -> firstn n (update h a o) = firstn n h.
Proof.
  revert h a. induction n as [|n IH]; intros h a Hn; [reflexivity|].
  destruct h as [|o' h]; [reflexivity|].
  destruct a as [|a]; [lia|]. simpl. f_equal. apply IH. lia.
Qed.

(** Writing at an address beyond the first [n] leaves them alone. *)
Lemma frame_write (n a : nat) (o : object) :
  (n <= a)%nat -> frame (F:=F) n (write a o).
Proof.
  intros Ha h u h' _ H. unfold write in H. injection H as <- <-. split.
  - now apply update_firstn.
  - now rewrite update_length.
Qed.

Lemma frame_bind (n : nat) {A B : Type} (m : M A) (k : A -> M B) :
  frame (F:=F) n m -> (forall a, frame (F:=F) n (k a)) -> frame (F:=F) n (bindM m k).
Proof.
  intros Hm Hk h b h' Hn H. unfold bindM in H.
  destruct (m h) as [[a h1]|e] eqn:E; [|discriminate].
  destruct (Hm h a h1 Hn E) as [Hfirst Hlen].
  destruct (Hk a h1 b h' (Nat.le_trans _ _ _ Hn Hlen) H) as [Hfirst' Hlen'].
  split; [congruence | lia].
Qed.

(** The address of a new object is beyond the first [n]. *)
Lemma frame_new_bind (n : nat) {B : Type} (o : object) (k : nat -> M B) :
  (forall a, (n <= a)%nat -> frame (F:=F) n (k a)) -> frame (F:=F) n (bindM (new o) k).
Proof.
  intros Hk h b h' Hn H. unfold bindM, new in H.
  destruct (@frame_new n o h (List.length h) (h ++ [o]) Hn eq_refl)
    as [Hfirst Hlen].
  destruct (Hk (List.length h) Hn (h ++ [o]) b h'
              (Nat.le_trans _ _ _ Hn Hlen) H) as [Hfirst' Hlen'].
  split; [congruence | lia].
Qed.

Lemma frame_for (n : nat) {A S : Type} (xs : list A) (body : A -> S -> M S)
    (s : S) :
  (forall x s', frame (F:=F) n (body x s')) -> frame (F:=F) n (for_M xs body s).
Proof.
  intros Hbody. revert s. induction xs as [|x xs IH]; intros s; simpl.
  - apply frame_ret.
  - apply frame_bind; [apply Hbody | exact IH].
Qed.

Lemma frame_load_dict (n a : nat) : frame (F:=F) n (load_dict a).
Proof.
  unfold load_dict. apply frame_bind; [apply frame_load|].
  intros [d|s|l]; [apply frame_ret | apply frame_lift | apply frame_lift].
Qed.

Lemma frame_dict_get (n a : nat) (k : pagename) : frame (F:=F) n (dict_get a k).
Proof.
  unfold dict_get. apply frame_bind; [apply frame_load_dict|].
  intros d. apply frame_lift.
Qed.

(** [d[k] = v] on a dictionary beyond the first [n] objects. *)
Lemma frame_dict_set (n a : nat) (k : pagename) (v : value) :
  (n <= a)%nat -> frame (F:=F) n (dict_set a k v).
Proof.
  intros Ha. unfold dict_set. apply frame_bind; [apply frame_load_dict|].
  intros d. now apply frame_write.
Qed.

Lemma frame_iter_keys (n a : nat) : frame (F:=F) n (iter_keys a).
Proof.
  unfold iter_keys. apply frame_bind; [apply frame_load_dict|].
  intros d. apply frame_ret.
Qed.

Lemma frame_iter_items (n a : nat) : frame (F:=F) n (iter_items a).
Proof. apply frame_load_dict. Qed.

Lemma frame_obj_len (n a : nat) : frame (F:=F) n (obj_len a).
Proof.
  unfold obj_len. apply frame_bind; [apply frame_load|].
  intros o. apply frame_ret.
Qed.

Lemma frame_obj_contains (n a : nat) (p : pagename) :
  frame (F:=F) n (obj_contains a p).
Proof.
  unfold obj_contains. apply frame_bind; [apply frame_load|].
  intros [d|s|l]; apply frame_ret.
Qed.

Lemma frame_list_get (n a i : nat) : frame (F:=F) n (list_get a i).
Proof.
  unfold list_get. apply frame_bind; [apply frame_load|].
  intros [d|s|l]; try apply frame_lift.
  destruct (nth_error l i); [apply frame_ret | apply frame_lift].
Qed.

Lemma frame_to_ref (n : nat) (v : value) : frame (F:=F) n (to_ref v).
Proof. destruct v; simpl; first [apply frame_ret | apply frame_lift]. Qed.

Lemma frame_to_float (n : nat) (v : value) : frame (F:=F) n (to_float v).
Proof. destruct v; simpl; first [apply frame_ret | apply frame_lift]. Qed.

Lemma frame_to_int (n : nat) (v : value) : frame (F:=F) n (to_int v).
Proof. destruct v; simpl; first [apply frame_ret | apply frame_lift]. Qed.

End Rules.

(** One step of a frame proof, by the shape of the computation. *)
Ltac frame_step :=
  match goal with
  | |- frame _ (bindM (new _) _) => apply frame_new_bind; intros ? ?
  | |- frame _ (bindM _ _) => apply frame_bind; [|intros ?]
  | |- frame _ (ret _) => apply frame_ret
  | |- frame _ (lift _) => apply frame_lift
  | |- frame _ (new _) => apply frame_new
  | |- frame _ (for_M _ _ _) => apply frame_for; intros ? ?
  | |- frame _ (dict_set _ _ _) => apply frame_dict_set; assumption
  | |- frame _ (dict_get _ _) => apply frame_dict_get
  | |- frame _ (iter_keys _) => apply frame_iter_keys
  | |- frame _ (iter_items _) => apply frame_iter_items
  | |- frame _ (obj_len _) => apply frame_obj_len
  | |- frame _ (obj_contains _ _) => apply frame_obj_contains
  | |- frame _ (list_get _ _) => apply frame_list_get
  | |- frame _ (to_ref _) => apply frame_to_ref
  | |- frame _ (to_float _) => apply frame_to_float
  | |- frame _ (to_int _) => apply frame_to_int
  | |- frame _ (if ?b then _ else _) => destruct b
  | |- frame _ (match ?v with _ => _ end) => destruct v
  end.

Section Frames.

Context {F : Type} {NumF : Num F}.

Lemma frame_transition_model (n corpus : nat) (page : pagename) (d : F) :
  frame (F:=F) n (transition_model corpus page d).
Proof. unfold transition_model. repeat frame_step. Qed.

Lemma frame_transform_model (n tm : nat) :
  frame (F:=F) n (transform_model (F:=F) tm).
Proof. unfold transform_model. repeat frame_step. Qed.

Lemma frame_draw_page (n model : nat) (ps : list pagename) (r : F)
    (page : pagename) :
  frame (F:=F) n (draw_page model ps r page).
Proof.
  induction ps as [|p ps IH]; simpl; [apply frame_ret|].
  repeat first [exact IH | frame_step].
Qed.

Lemma frame_sample_step (n corpus : nat) (d : F) (g : rng)
    (sample models i : nat) (page : pagename) :
  (n <= sample)%nat -> (n <= models)%nat ->
  frame (F:=F) n (sample_step corpus d g sample models i page).
Proof.
  intros Hs Hm. unfold sample_step.
  repeat first [apply frame_transition_model | apply frame_transform_model
               | apply frame_draw_page | frame_step].
Qed.

Lemma frame_sample_pagerank (n corpus : nat) (d : F) (k : Z) (g : rng) :
  frame (F:=F) n (sample_pagerank corpus d k g).
Proof.
  unfold sample_pagerank.
  repeat first [apply frame_sample_step; assumption | frame_step].
Qed.

Lemma frame_round (n corpus : nat) (d : F) (num_pages : Z) (page_rank : nat) :
  frame (F:=F) n (round corpus d num_pages page_rank).
Proof. unfold round. repeat frame_step. Qed.

Lemma frame_max_delta (n corpus page_rank new_pr : nat) :
  frame (F:=F) n (max_delta (F:=F) corpus page_rank new_pr).
Proof. unfold max_delta. repeat frame_step. Qed.

Lemma frame_iterate_loop (n fuel corpus : nat) (d : F) (num_pages : Z)
    (page_rank : nat) :
  frame (F:=F) n (iterate_loop fuel corpus d num_pages page_rank).
Proof.
  revert page_rank. induction fuel as [|fuel IH]; intros page_rank; simpl.
  - apply frame_ret.
  - repeat first [apply frame_round | apply frame_max_delta | apply IH
                 | frame_step].
Qed.

Lemma frame_iterate_pagerank (n fuel corpus : nat) (d : F) :
  frame (F:=F) n (iterate_pagerank fuel corpus d).
Proof.
  unfold iterate_pagerank.
  repeat first [apply frame_iterate_loop | frame_step].
Qed.

Lemma frame_run (n : nat) (c : call) (corpus : nat) :
  frame (F:=F) n (run (F:=F) c corpus).
Proof.
  destruct c; simpl.
  - apply frame_bind; [apply frame_transition_model | intros; apply frame_ret].
  - apply frame_bind; [apply frame_sample_pagerank | intros; apply frame_ret].
  - apply frame_iterate_pagerank.
Qed.

Lemma sets_at_app (h fresh : store (F:=F)) (d : pydict value)
    (g : pydict pyset) :
  sets_at h d = Some g -> sets_at (h ++ fresh) d = Some g.
Proof.
  revert g. induction d as [|[k v] d IH]; intros g; simpl; [auto|].
  destruct (set_at h v) as [s|] eqn:Hs; [|discriminate].
  destruct (sets_at h d) as [g'|]; [|discriminate].
  intros H. rewrite (IH g' eq_refl).
  assert (Hs' : set_at (h ++ fresh) v = Some s).
  { unfold set_at in *. destruct v as [| | |a]; try discriminate.
    destruct (nth_error h a) as [o|] eqn:E; [|discriminate].
    rewrite nth_error_app1 by (apply nth_error_Some; congruence).
    now rewrite E. }
  now rewrite Hs'.
Qed.

End Frames.

End StoreFrame.

(** C9. Whichever of [transition_model], [sample_pagerank] and
    [iterate_pagerank] is called, on whatever store and arguments, if the call
    returns then the store it leaves is the store it was given followed by
    new objects: no object of the caller has been written to, and the graph
    read at the address passed in (its keys and every outlink set) is the one
    that was there before the call. *)
Theorem core_never_mutates_graph {F : Type} {NumF : Num F}
    (c : Store.call) (corpus : nat) (h h' : Store.store) (r : option nat) :
  Store.run c corpus h = Ok (r, h') ->
  (exists fresh, h' = h ++ fresh) /\
  (forall g, Store.graph_at h corpus = Some g ->
             Store.graph_at h' corpus = Some g).
Proof.
  intros Hrun.
  destruct (@StoreFrame.frame_run F NumF (List.length h) c corpus h r h'
              (Nat.le_refl _) Hrun) as [Hfirst _].
  rewrite firstn_all in Hfirst.
  assert (Hext : h' = h ++ skipn (List.length h) h').
  { rewrite <- Hfirst at 1. symmetry. apply firstn_skipn. }
  split; [eexists; exact Hext|].
  intros g Hg. rewrite Hext. unfold Store.graph_at in *.
  destruct (nth_error h corpus) as [o|] eqn:E; [|discriminate].
  rewrite nth_error_app1 by (apply nth_error_Some; congruence).
  rewrite E. destruct o as [d|s|l]; try discriminate.
  now apply StoreFrame.sets_at_app.
Qed.

(** On [g3] the two embeddings compute the same mappings. *)
Lemma store_agrees_on_g3 :
  Store.graph_at (F:=float) store3 3 = Some g3 /\
  result_on_store3 (Store.CallTransitionModel "B" (85 # 100))
  = returned (transition_model g3 "B" (85 # 100)) /\
  result_on_store3 (Store.CallSamplePagerank (85 # 100) 5 rng_sevenths)
  = returned (sample_pagerank g3 (85 # 100) 5 rng_sevenths) /\
  result_on_store3 (Store.CallSamplePagerank 0x1.b333333333333p-1%float 50 rng_half)
  = returned (sample_pagerank g3 0x1.b333333333333p-1%float 50 rng_half) /\
  result_on_store3 (Store.CallIteratePagerank 100 0x1.b333333333333p-1%float)
  = finished (iterate_pagerank 100 g3 0x1.b333333333333p-1%float).
Proof.
  repeat split; vm_compute; reflexivity.
Qed.

Lemma core_never_mutates_graph_witness :
  (exists r h',
     Store.run (Store.CallTransitionModel "B" (85 # 100)) 3 store3
     = Ok (r, h') /\
     (exists fresh, h' = store3 ++ fresh) /\
     Store.graph_at h' 3 = Some g3) /\
  (exists r h',
     Store.run (Store.CallSamplePagerank (85 # 100) 5 rng_sevenths) 3 store3
     = Ok (r, h') /\
     (exists fresh, h' = store3 ++ fresh) /\
     Store.graph_at h' 3 = Some g3) /\
  (exists r h',
     Store.run (Store.CallIteratePagerank 100 0x1.b333333333333p-1%float) 3
       store3
     = Ok (r, h') /\
     (exists fresh, h' = store3 ++ fresh) /\
     Store.graph_at h' 3 = Some g3).
Proof.
  split; [|split].
  - eexists. eexists. split; [vm_compute; reflexivity|].
    match goal with
    | |- (exists fresh, ?h' = _) /\ _ =>
        destruct (@core_never_mutates_graph Q QNum
                    (Store.CallTransitionModel "B" (85 # 100)) 3 store3 h'
                    (Some 4%nat) eq_refl) as [Hfresh Hgraph]
    end.
    split; [exact Hfresh | exact (Hgraph g3 eq_refl)].
  - eexists. eexists. split; [vm_compute; reflexivity|].
    match goal with
    | |- (exists fresh, ?h' = _) /\ _ =>
        destruct (@core_never_mutates_graph Q QNum
                    (Store.CallSamplePagerank (85 # 100) 5 rng_sevenths) 3
                    store3 h' (Some 16%nat) eq_refl) as [Hfresh Hgraph]
    end.
    split; [exact Hfresh | exact (Hgraph g3 eq_refl)].
  - eexists. eexists. split; [vm_compute; reflexivity|].
    match goal with
    | |- (exists fresh, ?h' = _) /\ _ =>
        assert (Hrun : Store.run
                         (Store.CallIteratePagerank 100 0x1.b333333333333p-1%float)
                         3 store3 = Ok (Some (List.length h' - 1)%nat, h'))
          by (vm_compute; reflexivity);
        destruct (@core_never_mutates_graph float FloatNum _ 3 store3 h' _ Hrun)
          as [Hfresh Hgraph]
    end.
    split; [exact Hfresh | exact (Hgraph g3 eq_refl)].
Defined.

(** The invariant of C4 in binary64, on [g3] and [tree7] with [0.85]: after
    each of the first forty rounds the ranks, added in order, are within
    [1e-9] of 1. *)
Lemma sum_invariant_binary64 :
  forallb (fun k => sums_to_one
                      (page_rank_after k g3 0x1.b333333333333p-1%float))
    (seq 0 40) = true /\
  forallb (fun k => sums_to_one
                      (page_rank_after k tree7 0x1.b333333333333p-1%float))
    (seq 0 40) = true.
Proof.
  split; vm_compute; reflexivity.
Qed.

(** * Further properties of the code *)

(** ** [crawl] *)

Section DictFacts.

Context {V : Type}.

Lemma In_setitem (d : pydict V) (k k' : pagename) (v v' : V) :
  In (k', v') (setitem d k v) -> (k' = k /\ v' = v) \/ In (k', v') d.
Proof.
  induction d as [|[k0 v0] d IH]; simpl.
  - intros [H|[]]. injection H as <- <-. auto.
  - destruct (String.eqb_spec k0 k) as [->|Hne]; simpl.
    + intros [H|H]; [injection H as <- <-; auto | auto].
    + intros [H|H]; [auto|]. destruct (IH H); auto.
Qed.

Lemma keys_setitem (d : pydict V) (k : pagename) (v : V) :
  keys (setitem d k v)
  = if contains (keys d) k then keys d else keys d ++ [k].
Proof.
  destruct (contains (keys d) k) eqn:E.
  - apply keys_setitem_In. now apply contains_In.
  - apply contains_not_In in E. rewrite setitem_fresh by assumption.
    rewrite keys_app. reflexivity.
Qed.

(** Assignments keep the keys of a dictionary distinct. *)
Lemma NoDup_keys_setitem (d : pydict V) (k : pagename) (v : V) :
  NoDup (keys d) -> NoDup (keys (setitem d k v)).
Proof.
  intros Hnd. rewrite keys_setitem. destruct (contains (keys d) k) eqn:E.
  - exact Hnd.
  - apply contains_not_In in E. apply NoDup_app; [exact Hnd | | ].
    + repeat constructor. intros [].
    + intros x Hx [<-|[]]. contradiction.
Qed.

Lemma setitem_middle (pre suf : pydict V) (k : pagename) (v v' : V) :
  ~ In k (keys pre) ->
  setitem (pre ++ (k, v) :: suf) k v' = pre ++ (k, v') :: suf.
Proof.
  induction pre as [|[k0 v0] pre IH]; simpl; intros Hnotin.
  - now rewrite String.eqb_refl.
  - destruct (String.eqb_spec k0 k) as [->|Hne].
    + exfalso. apply Hnotin. now left.
    + rewrite IH; [reflexivity|]. intros H. apply Hnotin. now right.
Qed.

Lemma getitem_middle (pre suf : pydict V) (k : pagename) (v : V) :
  ~ In k (keys pre) -> getitem (pre ++ (k, v) :: suf) k = Ok v.
Proof.
  induction pre as [|[k0 v0] pre IH]; simpl; intros Hnotin.
  - now rewrite String.eqb_refl.
  - destruct (String.eqb_spec k0 k) as [->|Hne].
    + exfalso. apply Hnotin. now left.
    + apply IH. intros H. apply Hnotin. now right.
Qed.

End DictFacts.

Lemma NoDup_set_of_list (l : list pagename) : NoDup (set_of_list l).
Proof. apply NoDup_nodup. Qed.

Lemma In_set_of_list (l : list pagename) (x : pagename) :
  In x (set_of_list l) <-> In x l.
Proof. apply nodup_In. Qed.

Lemma In_set_remove (s : pyset) (x y : pagename) :
  In y (set_remove s x) <-> In y s /\ y <> x.
Proof.
  unfold set_remove. rewrite filter_In, negb_true_iff, String.eqb_neq.
  reflexivity.
Qed.

Lemma NoDup_set_remove (s : pyset) (x : pagename) :
  NoDup s -> NoDup (set_remove s x).
Proof. apply NoDup_filter. Qed.

(** What the second loop of [crawl] leaves: every value a set of keys. *)
Lemma restricted_well_formed (pages : pydict pyset) :
  NoDup (keys pages) ->
  well_formed
    (map (fun kv => (fst kv,
                     set_of_list
                       (filter (fun link => contains (keys pages) link)
                          (snd kv))))
       pages) = true.
Proof.
  intros Hnd. unfold well_formed. apply andb_true_iff. split.
  - apply distinct_NoDup. unfold keys. rewrite map_map. exact Hnd.
  - apply forallb_forall. intros [k v] Hin. apply distinct_NoDup.
    apply in_map_iff in Hin. destruct Hin as [[k0 v0] [Heq _]].
    injection Heq as <- <-. apply NoDup_set_of_list.
Qed.

Lemma restricted_invariant (pages : pydict pyset) :
  (forall k v, In (k, v) pages -> ~ In k v) ->
  graph_invariant
    (map (fun kv => (fst kv,
                     set_of_list
                       (filter (fun link => contains (keys pages) link)
                          (snd kv))))
       pages) = true.
Proof.
  intros Hself. unfold graph_invariant. apply forallb_forall. intros [k v] Hin.
  apply forallb_forall. intros q Hq. cbn [fst snd] in *.
  apply in_map_iff in Hin. destruct Hin as [[k0 v0] [Heq Hin0]].
  cbn [fst snd] in Heq. injection Heq as <- <-.
  apply -> In_set_of_list in Hq. apply filter_In in Hq.
  destruct Hq as [Hq Hkey]. apply andb_true_iff. split.
  - unfold keys at 1. rewrite map_map. exact Hkey.
  - apply negb_true_iff, String.eqb_neq. intros ->.
    exact (Hself _ _ Hin0 Hq).
Qed.

Section CrawlFacts.

Variable findall_href : string -> list string.

Lemma crawl_read_inv (dir : directory) (l : list (string * string))
    (pages : pydict pyset) :
  incl l dir -> read_inv findall_href dir pages ->
  read_inv findall_href dir (fold_left (crawl_read findall_href) l pages).
Proof.
  revert pages. induction l as [|entry l IH]; intros pages Hincl Hinv;
    [exact Hinv|].
  cbn [fold_left]. apply IH.
  - intros x Hx. apply Hincl. now right.
  - unfold crawl_read. destruct (endswith (fst entry) ".html") eqn:E;
      cbn [negb]; [|exact Hinv].
    destruct Hinv as [Hnd Hall]. split.
    + now apply NoDup_keys_setitem.
    + intros k v Hin. apply In_setitem in Hin.
      destruct Hin as [[-> ->]|Hin]; [|now apply Hall].
      exists entry. repeat split; try assumption.
      apply Hincl. now left.
Qed.

(** After the first loop the keys are distinct and no page is among its own
    links. *)
Lemma crawl_read_all (dir : directory) :
  read_inv findall_href dir (fold_left (crawl_read findall_href) dir []).
Proof.
  apply crawl_read_inv; [apply incl_refl|]. split; [constructor|].
  intros k v [].
Qed.

Lemma read_inv_no_self (dir : directory) (pages : pydict pyset) :
  read_inv findall_href dir pages ->
  forall k v, In (k, v) pages -> ~ In k v.
Proof.
  intros [_ Hall] k v Hin Hk.
  destruct (Hall _ _ Hin) as [entry [_ [Hname [_ Hv]]]]. subst v.
  unfold links_read in Hk. apply -> In_set_remove in Hk.
  rewrite Hname in Hk. now apply (proj2 Hk).
Qed.

(** The second loop replaces every value and keeps the keys. *)
Lemma crawl_restrict_from (pre suf : pydict pyset) :
  NoDup (keys (pre ++ suf)) ->
  for_in (keys suf) crawl_restrict (pre ++ suf)
  = Ok (pre ++ map (fun kv =>
                      (fst kv,
                       set_of_list
                         (filter (fun link => contains (keys (pre ++ suf)) link)
                            (snd kv))))
                 suf).
Proof.
  revert pre. induction suf as [|[k v] suf IH]; intros pre Hnd;
    [reflexivity|].
  assert (Hfresh : ~ In k (keys pre)).
  { rewrite keys_app in Hnd. simpl in Hnd. apply NoDup_remove_2 in Hnd.
    intros H. apply Hnd. apply in_or_app. now left. }
  cbn [keys map fst for_in]. unfold crawl_restrict at 1.
  rewrite getitem_middle by assumption. cbn [bind].
  rewrite setitem_middle by assumption.
  set (v' := set_of_list
               (filter (fun link => contains (keys (pre ++ (k, v) :: suf)) link)
                  v)).
  assert (Hkeys : keys ((pre ++ [(k, v')]) ++ suf) = keys (pre ++ (k, v) :: suf)).
  { rewrite <- app_assoc. rewrite !keys_app. reflexivity. }
  replace (pre ++ (k, v') :: suf) with ((pre ++ [(k, v')]) ++ suf)
    by (now rewrite <- app_assoc).
  change (map fst suf) with (keys suf).
  rewrite IH by (rewrite Hkeys; exact Hnd).
  rewrite Hkeys. rewrite <- app_assoc. reflexivity.
Qed.

(** [crawl] never raises: it returns the files read by the first loop, each
    with its links restricted to the files read. *)
Lemma crawl_Ok (dir : directory) :
  let pages := fold_left (crawl_read findall_href) dir [] in
  crawl findall_href dir
  = Ok (map (fun kv =>
               (fst kv,
                set_of_list
                  (filter (fun link => contains (keys pages) link) (snd kv))))
          pages).
Proof.
  intros pages. unfold crawl. fold pages.
  exact (@crawl_restrict_from [] pages (proj1 (crawl_read_all dir))).
Qed.

End CrawlFacts.

Section CrawlTheorems.

Variable findall_href : string -> list string.

(** With distinct names, the first loop stores the [.html] files in the order
    of the listing. *)
Lemma crawl_read_distinct (l : list (string * string)) (pages : pydict pyset) :
  NoDup (keys pages ++ map fst l) ->
  fold_left (crawl_read findall_href) l pages
  = pages ++ map (fun entry => (fst entry, links_read findall_href entry))
               (filter is_html l).
Proof.
  revert pages. induction l as [|entry l IH]; intros pages Hnd.
  - simpl. now rewrite app_nil_r.
  - cbn [fold_left filter]. unfold crawl_read at 2, is_html at 1.
    assert (Hnd' : NoDup (keys pages ++ map fst l)).
    { simpl in Hnd. now apply NoDup_remove_1 in Hnd. }
    destruct (endswith (fst entry) ".html") eqn:E; cbn [negb].
    + assert (Hfresh : ~ In (fst entry) (keys pages)).
      { intros H. simpl in Hnd. apply NoDup_remove_2 in Hnd. apply Hnd.
        apply in_or_app. now left. }
      rewrite setitem_fresh by assumption. rewrite IH.
      * rewrite <- app_assoc. reflexivity.
      * rewrite keys_app. simpl in *. now rewrite <- app_assoc.
    + now apply IH.
Qed.

(** X1. Whatever the directory holds and whatever targets the search
    returns, [crawl] returns a graph (it raises nothing), the graph is a
    well-formed dictionary of sets, and it satisfies the graph invariant:
    every link is a key and no page links to itself. *)
Theorem crawl_valid_graph (dir : directory) :
  exists g, crawl findall_href dir = Ok g /\
            well_formed g = true /\ graph_invariant g = true.
Proof.
  pose proof (crawl_read_all findall_href dir) as Hinv.
  eexists. split; [apply crawl_Ok|]. split.
  - apply restricted_well_formed. apply Hinv.
  - apply restricted_invariant. eapply read_inv_no_self. exact Hinv.
Qed.

(** X2. In a directory whose names are distinct, the pages of the graph that
    [crawl] returns are exactly the names that end in [.html], in the order
    of the listing; other files are ignored. *)
Theorem crawl_keys (dir : directory) :
  NoDup (map fst dir) ->
  exists g, crawl findall_href dir = Ok g /\
            keys g = filter (fun name => endswith name ".html") (map fst dir).
Proof.
  intros Hnd. eexists. split; [apply crawl_Ok|].
  rewrite (crawl_read_distinct dir []) by exact Hnd. cbn [app].
  unfold keys. rewrite !map_map. cbn [fst].
  induction dir as [|entry l IH]; [reflexivity|].
  cbn [filter map]. unfold is_html at 1.
  inversion Hnd; subst.
  destruct (endswith (fst entry) ".html"); cbn [map]; now rewrite IH.
Qed.

(** X3. In a directory whose names are distinct, the outlinks [crawl] gives a
    page are exactly the targets found in its text that are not the page
    itself and that are names of [.html] files of the directory. *)
Theorem crawl_links (dir : directory) (p contents : string) :
  NoDup (map fst dir) -> In (p, contents) dir -> endswith p ".html" = true ->
  exists g links,
    crawl findall_href dir = Ok g /\ getitem g p = Ok links /\
    forall q, In q links <->
              In q (findall_href contents) /\ q <> p /\
              In q (map fst dir) /\ endswith q ".html" = true.
Proof.
  intros Hnd Hin Hhtml.
  set (pages := fold_left (crawl_read findall_href) dir []).
  assert (Hpages : pages = map (fun entry => (fst entry, links_read findall_href entry))
                             (filter is_html dir)).
  { unfold pages. now rewrite (crawl_read_distinct dir []) by exact Hnd. }
  assert (Hkeys : keys pages = map fst (filter is_html dir)).
  { rewrite Hpages. unfold keys. rewrite map_map. reflexivity. }
  assert (Hndk : NoDup (keys pages)).
  { apply (crawl_read_all findall_href dir). }
  eexists. eexists. split; [apply crawl_Ok|]. fold pages.
  split.
  - apply getitem_In.
    + unfold keys. rewrite map_map. exact Hndk.
    + apply in_map_iff. exists (p, links_read findall_href (p, contents)).
      split; [reflexivity|]. rewrite Hpages. apply in_map_iff.
      exists (p, contents). split; [reflexivity|].
      apply filter_In. split; [exact Hin | exact Hhtml].
  - intros q. cbn [snd]. rewrite In_set_of_list, filter_In.
    unfold links_read. cbn [fst snd]. rewrite In_set_remove, In_set_of_list.
    rewrite contains_In, Hkeys, in_map_iff.
    split.
    + intros [[Hq Hne] [entry [Hname Hentry]]]. apply filter_In in Hentry.
      destruct Hentry as [Hentry Hq_html]. unfold is_html in Hq_html.
      subst q. repeat split; try assumption. now apply in_map.
    + intros [Hq [Hne [Hname Hq_html]]]. split; [now split|].
      apply in_map_iff in Hname. destruct Hname as [entry [Hname Hentry]].
      exists entry. split; [exact Hname|]. apply filter_In.
      split; [exact Hentry|]. unfold is_html. now rewrite Hname.
Qed.

End CrawlTheorems.

Lemma substring_all (s : string) : substring 0 (String.length s) s = s.
Proof.
  induction s as [|c s IH]; [reflexivity|]. simpl. now rewrite IH.
Qed.

Lemma substring_append (a b : string) :
  substring (String.length a) (String.length b) (a ++ b) = b.
Proof.
  induction a as [|c a IH]; simpl; [apply substring_all | exact IH].
Qed.

Lemma string_length_append (a b : string) :
  String.length (a ++ b) = (String.length a + String.length b)%nat.
Proof.
  induction a as [|c a IH]; simpl; [reflexivity | now rewrite IH].
Qed.

Lemma substring_split (n m : nat) (s : string) :
  (n + m)%nat = String.length s ->
  s = (substring 0 n s ++ substring n m s)%string.
Proof.
  revert s. induction n as [|n IH]; intros s Hlen.
  - simpl in Hlen. subst m. rewrite substring_all.
    destruct s; reflexivity.
  - destruct s as [|c s]; [discriminate|]. simpl in *.
    f_equal. apply IH. lia.
Qed.

(** [endswith] is what it says: the string is something followed by the
    suffix. *)
Lemma endswith_iff (s suffix : string) :
  endswith s suffix = true <-> exists a, s = (a ++ suffix)%string.
Proof.
  unfold endswith. rewrite andb_true_iff, Nat.leb_le, String.eqb_eq. split.
  - intros [Hlen Hsub].
    exists (substring 0 (String.length s - String.length suffix) s).
    rewrite (@substring_split (String.length s - String.length suffix)
               (String.length suffix) s) at 1 by lia.
    now rewrite Hsub.
  - intros [a ->]. rewrite string_length_append. split; [lia|].
    replace (String.length a + String.length suffix - String.length suffix)%nat
      with (String.length a) by lia.
    apply substring_append.
Qed.


Section Pipeline.

Variable findall_href : string -> list string.



Lemma crawl_read_nothing (l : list (string * string)) (pages : pydict pyset) :
  (forall entry, In entry l -> is_html entry = false) ->
  fold_left (crawl_read findall_href) l pages = pages.
Proof.
  revert pages. induction l as [|e l IH]; intros pages Hall; [reflexivity|].
  cbn [fold_left]. unfold crawl_read at 2.
  assert (He : endswith (fst e) ".html" = false) by (apply Hall; now left).
  rewrite He. cbn [negb]. apply IH. intros entry Hin. apply Hall. now right.
Qed.


(** X5. On a directory without any [.html] file [crawl] returns the empty
    graph, on which [sample_pagerank] raises [IndexError] (there is no page
    to choose) and [iterate_pagerank] raises [ValueError] ([max] of an empty
    list), in any arithmetic. *)
Theorem crawl_nothing_to_rank {F : Type} {NumF : Num F} (dir : directory)
    (d : F) (n : Z) (g : rng) (fuel : nat) :
  (forall entry, In entry dir -> is_html entry = false) ->
  crawl findall_href dir = Ok [] /\
  sample_pagerank [] d n g = Raise IndexError /\
  iterate_pagerank (S fuel) [] d = Some (Raise ValueError).
Proof.
  intros Hall. split; [|split; reflexivity].
  rewrite crawl_Ok. now rewrite crawl_read_nothing.
Qed.

End Pipeline.

(** X6. In any arithmetic (binary64 included), [iterate_pagerank] raises
    nothing on a non-empty graph: whenever the loop stops, it returns a
    mapping, and the keys of that mapping are the pages of the graph, in
    order. *)
Theorem iterate_pagerank_no_exception {F : Type} {NumF : Num F} (fuel : nat)
    (corpus : pydict pyset) (d : F) (r : result (pydict F)) :
  well_formed corpus = true -> corpus <> [] ->
  iterate_pagerank fuel corpus d = Some r ->
  exists pr, r = Ok pr /\ keys pr = keys corpus.
Proof.
  intros Hwf Hne Hrun. rewrite iterate_pagerank_loop in Hrun by assumption.
  apply iterate_loop_result in Hrun.
  - destruct Hrun as [k [_ [_ ->]]]. eexists. split; [reflexivity|].
    now rewrite keys_rank_iter, keys_normalized.
  - now apply normalized_proper.
  - now apply normalized_nonempty.
Qed.

(** ** The sampler: exceptions, counts, the cache *)

Lemma In_le_Zsum (l : list Z) (x : Z) :
  (forall y, In y l -> (0 <= y)%Z) -> In x l -> (x <= Zsum l)%Z.
Proof.
  induction l as [|z l IH]; intros Hpos Hin; [contradiction|]. simpl.
  assert (Hz : (0 <= z)%Z) by (apply Hpos; now left).
  assert (Hs : (0 <= Zsum l)%Z).
  { clear IH Hin. induction l as [|y l IHl]; simpl; [lia|].
    assert ((0 <= y)%Z) by (apply Hpos; right; now left).
    assert ((0 <= Zsum l)%Z).
    { apply IHl. intros w [<-|Hw]; apply Hpos; [now left | right; now right]. }
    lia. }
  destruct Hin as [<-|Hin]; [lia|].
  assert ((x <= Zsum l)%Z).
  { apply IH; [|assumption]. intros y Hy. apply Hpos. now right. }
  lia.
Qed.

Section SamplerFacts.

Context {F : Type} {NumF : Num F}.

(** A pass through the loop only adds to a count. *)
Lemma sample_step_nonneg (corpus : pydict pyset) (d : F) (g : rng) (i : nat)
    (st st' : sampler) :
  sample_step corpus d g i st = Ok st' ->
  (forall p c, In (p, c) (sample st) -> (0 <= c)%Z) ->
  forall p c, In (p, c) (sample st') -> (0 <= c)%Z.
Proof.
  unfold sample_step. intros Hstep Hpos.
  destruct (memoize corpus d (models st) (cur st)) as [models'|];
    [|discriminate].
  cbn [bind] in Hstep.
  destruct (getitem models' (cur st)) as [[model|]|]; try discriminate.
  cbn [bind] in Hstep.
  destruct (draw_page model (keys model) (random g i) (cur st)) as [page'|];
    [|discriminate].
  cbn [bind] in Hstep.
  destruct (getitem (sample st) page') as [c0|] eqn:Hc0; [|discriminate].
  cbn [bind] in Hstep. injection Hstep as <-. cbn [sample].
  intros p c Hin. apply In_setitem in Hin.
  destruct Hin as [[-> ->]|Hin]; [|now apply (Hpos p)].
  apply getitem_Ok_In in Hc0. specialize (Hpos _ _ Hc0). lia.
Qed.

Lemma sample_loop_nonneg (corpus : pydict pyset) (d : F) (g : rng)
    (js : list nat) (st st' : sampler) :
  for_in js (sample_step corpus d g) st = Ok st' ->
  (forall p c, In (p, c) (sample st) -> (0 <= c)%Z) ->
  forall p c, In (p, c) (sample st') -> (0 <= c)%Z.
Proof.
  revert st. induction js as [|j js IH]; intros st Hrun Hpos.
  - injection Hrun as <-. exact Hpos.
  - cbn [for_in] in Hrun.
    destruct (sample_step corpus d g j st) as [st1|] eqn:Hstep;
      [|discriminate].
    cbn [bind] in Hrun. apply (IH st1 Hrun).
    eapply sample_step_nonneg; eassumption.
Qed.

(** The visit counter before the loop. *)
Lemma sample_counts_start (corpus : pydict pyset) (d : F) (n : Z) (g : rng) :
  well_formed corpus = true -> corpus <> [] ->
  exists start,
    In start (keys corpus) /\
    choice g (keys corpus) = Ok start /\
    sample_counts corpus d n g
    = (st <- for_in (seq 0 (Z.to_nat n)) (sample_step corpus d g)
               {| cur := start;
                  sample := map (fun p : pagename =>
                                   (p, if String.eqb p start then 1 else 0)%Z)
                              (keys corpus);
                  models := map (fun p : pagename => (p, None)) (keys corpus) |} ;;
       Ok (sample st)).
Proof.
  intros Hwf Hne. pose proof (well_formed_keys _ Hwf) as Hnd.
  assert (Hchoice : exists page, choice g (keys corpus) = Ok page /\
                                 In page (keys corpus)).
  { unfold choice. destruct (keys corpus) as [|p ks] eqn:E.
    - destruct corpus; [congruence | discriminate].
    - eexists. split; [reflexivity|]. apply nth_In.
      apply Nat.mod_upper_bound. discriminate. }
  destruct Hchoice as [page [Hpage Hin]]. exists page.
  split; [exact Hin|]. split; [exact Hpage|].
  unfold sample_counts. rewrite Hpage. cbn [bind].
  rewrite (fold_setitem (fun p => if String.eqb p page then 1 else 0)%Z)
    by exact Hnd.
  rewrite (fold_setitem (fun _ => None)) by exact Hnd. reflexivity.
Qed.

End SamplerFacts.

(** X7. In any arithmetic (binary64 included), on a non-empty graph and for
    [n >= 1], [sample_pagerank] raises nothing: it returns a mapping over the
    pages of the graph, in order, each value being the page's visit count
    divided by [n], where the counts are integers between 0 and [n + 1]. *)
Theorem sample_pagerank_no_exception {F : Type} {NumF : Num F}
    (corpus : pydict pyset) (d : F) (n : Z) (g : rng) :
  well_formed corpus = true -> corpus <> [] -> (1 <= n)%Z ->
  exists counts,
    sample_counts corpus d n g = Ok counts /\
    keys counts = keys corpus /\
    (forall p c, In (p, c) counts -> (0 <= c <= n + 1)%Z) /\
    sample_pagerank corpus d n g
    = Ok (map (fun kv => (fst kv, fdiv (of_int (snd kv)) (of_int n))) counts).
Proof.
  intros Hwf Hne Hn. pose proof (well_formed_keys _ Hwf) as Hnd.
  destruct (@sample_counts_total _ _ corpus d n g Hwf Hne)
    as [counts [Hcounts [Hkeys Hsum]]]; [lia|].
  exists counts. split; [exact Hcounts|]. split; [exact Hkeys|].
  assert (Hpos : forall p c, In (p, c) counts -> (0 <= c)%Z).
  { destruct (sample_counts_start d n g Hwf Hne) as [start [_ [_ Heq]]].
    rewrite Heq in Hcounts.
    match type of Hcounts with
    | bind ?c _ = _ => destruct c as [st|] eqn:Hrun; [|discriminate]
    end.
    cbn [bind] in Hcounts. injection Hcounts as <-.
    apply (sample_loop_nonneg _ _ _ _ _ Hrun). cbn [sample].
    intros p c Hin. apply in_map_iff in Hin. destruct Hin as [q [Hq _]].
    injection Hq as _ <-. destruct (String.eqb q start); lia. }
  split.
  - intros p c Hin. split; [now apply (Hpos p)|].
    rewrite <- Hsum. apply In_le_Zsum.
    + intros y Hy. unfold values in Hy. apply in_map_iff in Hy.
      destruct Hy as [[q c'] [<- Hq]]. now apply (Hpos q).
    + unfold values. change c with (snd (p, c)). now apply in_map.
  - apply sample_pagerank_Ok; [exact Hcounts | | lia].
    now rewrite Hkeys.
Qed.

(** X8. With [n = 0] on a non-empty graph, [sample_pagerank] raises
    [ZeroDivisionError]: the loop is skipped and the first visit count is
    divided by zero. *)
Theorem sample_pagerank_zero_samples {F : Type} {NumF : Num F}
    (corpus : pydict pyset) (d : F) (g : rng) :
  well_formed corpus = true -> corpus <> [] ->
  sample_pagerank corpus d 0 g = Raise ZeroDivisionError.
Proof.
  intros Hwf Hne.
  destruct (@sample_counts_total _ _ corpus d 0%Z g Hwf Hne)
    as [counts [Hcounts [Hkeys _]]]; [lia|].
  unfold sample_pagerank. rewrite Hcounts. cbn [bind].
  destruct counts as [|kv counts].
  - destruct corpus; [congruence | discriminate].
  - reflexivity.
Qed.


Section CacheFacts.

Context {F : Type} {NumF : Num F}.

Lemma next_page_model (corpus : pydict pyset) (d r : F) (p : pagename)
    (t : pydict (F * F)) :
  (tm <- transition_model corpus p d ;; transform_model tm) = Ok t ->
  next_page corpus d r p = draw_page t (keys t) r p.
Proof.
  unfold next_page. destruct (transition_model corpus p d) as [tm|];
    [|discriminate].
  cbn [bind]. intros ->. reflexivity.
Qed.

(** The model of a page of the graph exists and ranges over its pages. *)
Lemma model_of_page (corpus : pydict pyset) (d : F) (p : pagename) :
  NoDup (keys corpus) -> In p (keys corpus) ->
  exists t, (tm <- transition_model corpus p d ;; transform_model tm) = Ok t /\
            keys t = keys corpus.
Proof.
  intros Hnd Hp. destruct (getitem_keys corpus p Hp) as [links Hlinks].
  rewrite (@transition_model_Ok _ _ corpus p links d Hnd Hlinks). cbn [bind].
  destruct (@transform_model_Ok _ _
              (map (fun q => (q, transition_value corpus links d q))
                 (keys corpus))) as [t [Ht Hkt]].
  { now rewrite keys_map_pair. }
  exists t. split; [exact Ht|]. now rewrite Hkt, keys_map_pair.
Qed.

(** A pass through the loop moves and counts as the loop without cache does,
    and keeps the cache right. *)
Lemma sample_step_uncached_agree (corpus : pydict pyset) (d : F) (g : rng)
    (i : nat) (st : sampler) :
  NoDup (keys corpus) -> In (cur st) (keys corpus) ->
  keys (models st) = keys corpus -> cache_ok corpus d (models st) ->
  match sample_step corpus d g i st with
  | Ok st' =>
      sample_step_uncached corpus d g i (cur st, sample st)
      = Ok (cur st', sample st') /\
      In (cur st') (keys corpus) /\
      keys (models st') = keys corpus /\
      cache_ok corpus d (models st')
  | Raise e =>
      sample_step_uncached corpus d g i (cur st, sample st) = Raise e
  end.
Proof.
  intros Hnd Hcur Hmk Hcache.
  destruct (@model_of_page corpus d (cur st) Hnd Hcur) as [t [Ht Hkt]].
  pose proof (@next_page_model corpus d (random g i) (cur st) t Ht) as Hnext.
  assert (Hmemo : exists models',
             memoize corpus d (models st) (cur st) = Ok models' /\
             getitem models' (cur st) = Ok (Some t) /\
             keys models' = keys corpus /\ cache_ok corpus d models').
  { unfold memoize.
    destruct (getitem_keys (models st) (cur st)) as [cached Hcached];
      [now rewrite Hmk|].
    rewrite Hcached. cbn [bind]. destruct cached as [t0|].
    - exists (models st). split; [reflexivity|].
      pose proof (Hcache _ _ Hcached) as Ht0. rewrite Ht in Ht0.
      injection Ht0 as <-. auto.
    - destruct (transition_model corpus (cur st) d) as [tm|] eqn:Htm;
        [|discriminate].
      cbn [bind] in *. rewrite Ht. cbn [bind].
      exists (setitem (models st) (cur st) (Some t)).
      split; [reflexivity|].
      split; [apply getitem_setitem_same|].
      split; [rewrite keys_setitem_In; [exact Hmk | now rewrite Hmk]|].
      intros p t' Hp. destruct (String.eqb_spec (cur st) p) as [<-|Hne].
      + rewrite getitem_setitem_same in Hp. injection Hp as <-.
        destruct (getitem_keys corpus (cur st) Hcur) as [links Hlinks].
        rewrite (@transition_model_Ok _ _ corpus (cur st) links d Hnd Hlinks)
          in Htm.
        rewrite (@transition_model_Ok _ _ corpus (cur st) links d Hnd Hlinks).
        injection Htm as <-. exact Ht.
      + rewrite getitem_setitem_other in Hp by assumption.
        now apply Hcache. }
  destruct Hmemo as [models' [Hrun [Hget [Hmk' Hcache']]]].
  unfold sample_step, sample_step_uncached. cbn [fst snd].
  rewrite Hrun. cbn [bind]. rewrite Hget. cbn [bind].
  rewrite Hnext.
  destruct (@draw_page_Ok _ _ t (keys t) (random g i) (cur st) (incl_refl _))
    as [page' [Hdraw Hpage']].
  rewrite Hdraw. cbn [bind].
  destruct (getitem (sample st) page') as [c|e]; cbn [bind]; [|reflexivity].
  cbn [cur sample models]. split; [reflexivity|].
  split; [|split; assumption].
  destruct Hpage' as [H| ->]; [now rewrite <- Hkt | exact Hcur].
Qed.

Lemma sample_loop_uncached_agree (corpus : pydict pyset) (d : F) (g : rng)
    (js : list nat) (st : sampler) :
  NoDup (keys corpus) -> In (cur st) (keys corpus) ->
  keys (models st) = keys corpus -> cache_ok corpus d (models st) ->
  match for_in js (sample_step corpus d g) st with
  | Ok st' =>
      for_in js (sample_step_uncached corpus d g) (cur st, sample st)
      = Ok (cur st', sample st')
  | Raise e =>
      for_in js (sample_step_uncached corpus d g) (cur st, sample st)
      = Raise e
  end.
Proof.
  intros Hnd. revert st. induction js as [|j js IH];
    intros st Hcur Hmk Hcache; [reflexivity|].
  cbn [for_in].
  pose proof (@sample_step_uncached_agree corpus d g j st Hnd Hcur Hmk Hcache)
    as Hstep.
  destruct (sample_step corpus d g j st) as [st1|e].
  - destruct Hstep as [Hun [Hcur1 [Hmk1 Hcache1]]]. rewrite Hun. cbn [bind].
    exact (IH st1 Hcur1 Hmk1 Hcache1).
  - rewrite Hstep. reflexivity.
Qed.

End CacheFacts.

(** X10. The cache of per-page models changes nothing: with or without it the
    sampler visits the same pages, counts the same visits and raises the same
    exceptions, in any arithmetic. *)
Theorem sample_cache_transparent {F : Type} {NumF : Num F}
    (corpus : pydict pyset) (d : F) (n : Z) (g : rng) :
  well_formed corpus = true ->
  sample_counts corpus d n g = sample_counts_uncached corpus d n g.
Proof.
  intros Hwf. pose proof (well_formed_keys _ Hwf) as Hnd.
  destruct corpus as [|kv corpus]; [reflexivity|].
  set (c := kv :: corpus) in *.
  assert (Hne : c <> []) by discriminate.
  destruct (sample_counts_start d n g Hwf Hne) as [start [Hin [Hchoice Heq]]].
  rewrite Heq. unfold sample_counts_uncached. rewrite Hchoice. cbn [bind].
  rewrite (fold_setitem (fun p => if String.eqb p start then 1 else 0)%Z)
    by exact Hnd.
  cbn [app].
  pose proof (@sample_loop_uncached_agree _ _ c d g (seq 0 (Z.to_nat n))
                {| cur := start;
                   sample := map (fun p : pagename =>
                                    (p, if String.eqb p start then 1 else 0)%Z)
                               (keys c);
                   models := map (fun p : pagename => (p, None)) (keys c) |}
                Hnd Hin (keys_map_pair _ _)) as Hloop.
  cbn [cur sample models] in Hloop.
  match type of Hloop with
  | ?P -> _ => assert (Hcache : P)
  end.
  { intros p t Hp. apply getitem_Ok_In in Hp. apply in_map_iff in Hp.
    destruct Hp as [q [Hq _]]. discriminate. }
  specialize (Hloop Hcache).
  match type of Hloop with
  | match ?run with _ => _ end => destruct run as [st|e]
  end; rewrite Hloop; reflexivity.
Qed.

(** ** The sampler draws from the transition model *)

Section RangeFacts.

Context {F : Type} {NumF : Num F}.

Lemma transform_model_ranges_from (tm suf : pydict F) (acc : pydict (F * F))
    (th : F) :
  NoDup (keys tm) -> incl suf tm -> NoDup (keys acc ++ keys suf) ->
  exists th',
    for_in (keys suf) (transform_step tm) (acc, th)
    = Ok (acc ++ ranges suf th, th').
Proof.
  intros Hnd. revert acc th.
  induction suf as [|[p v] suf IH]; intros acc th Hincl Hfresh.
  - exists th. simpl. now rewrite app_nil_r.
  - cbn [keys map fst for_in]. unfold transform_step at 1.
    rewrite (getitem_In _ _ _ Hnd (Hincl _ (or_introl eq_refl))). cbn [bind].
    assert (Hp : ~ In p (keys acc)).
    { intros H. simpl in Hfresh. apply NoDup_remove_2 in Hfresh.
      apply Hfresh. apply in_or_app. now left. }
    rewrite setitem_fresh by assumption.
    destruct (IH (acc ++ [(p, (th, fadd th v))]) (fadd th v)) as [th' Hrun].
    + intros x Hx. apply Hincl. now right.
    + rewrite keys_app. simpl in *. now rewrite <- app_assoc.
    + exists th'. change (map fst suf) with (keys suf). rewrite Hrun.
      cbn [ranges]. now rewrite <- app_assoc.
Qed.

(** [transform_model] gives every page the range that starts where the range
    of the page before it ends. *)
Lemma transform_model_ranges (tm : pydict F) :
  NoDup (keys tm) -> transform_model tm = Ok (ranges tm (of_int 0)).
Proof.
  intros Hnd. unfold transform_model. cbv zeta.
  destruct (@transform_model_ranges_from tm tm [] (of_int 0) Hnd
              (incl_refl _) Hnd) as [th' Hrun].
  rewrite Hrun. reflexivity.
Qed.

Lemma keys_ranges (tm : pydict F) (th : F) : keys (ranges tm th) = keys tm.
Proof.
  revert th. induction tm as [|[p v] tm IH]; intros th; [reflexivity|].
  cbn [ranges keys map fst]. f_equal. apply IH.
Qed.

Lemma draw_page_select_from (model l : pydict (F * F)) (r : F)
    (page : pagename) :
  NoDup (keys model) -> incl l model ->
  draw_page model (keys l) r page = Ok (select l r page).
Proof.
  intros Hnd. induction l as [|[p lh] l IH]; intros Hincl; [reflexivity|].
  cbn [keys map fst draw_page select].
  rewrite (getitem_In _ _ _ Hnd (Hincl _ (or_introl eq_refl))). cbn [bind].
  destruct (fle (fst lh) r && flt r (snd lh)); [reflexivity|].
  apply IH. intros x Hx. apply Hincl. now right.
Qed.

(** The inner loop of the sampler returns the first page whose range holds
    the draw. *)
Lemma draw_page_select (model : pydict (F * F)) (r : F) (page : pagename) :
  NoDup (keys model) ->
  draw_page model (keys model) r page = Ok (select model r page).
Proof.
  intros Hnd. apply draw_page_select_from; [exact Hnd | apply incl_refl].
Qed.

End RangeFacts.

(** In exact arithmetic, with non-negative weights: the page selected is the
    one whose cumulative interval holds [r], and beyond the total no page is
    selected. *)
Lemma select_ranges (tm : pydict Q) (th r : Q) (page : pagename) :
  (forall p v, In (p, v) tm -> 0 <= v) -> th <= r ->
  (r < th + Qsum (values tm) ->
   exists pre q v suf,
     tm = pre ++ (q, v) :: suf /\ select (ranges tm th) r page = q /\
     th + Qsum (values pre) <= r /\ r < th + Qsum (values pre) + v) /\
  (th + Qsum (values tm) <= r -> select (ranges tm th) r page = page).
Proof.
  revert th. induction tm as [|[p v] tm IH]; intros th Hpos Hth.
  - split; [|reflexivity]. simpl. intros H. lra.
  - assert (Hv : 0 <= v) by (apply (Hpos p); now left).
    assert (Hpos' : forall p0 v0, In (p0, v0) tm -> 0 <= v0).
    { intros p0 v0 H. apply (Hpos p0). now right. }
    cbn [ranges select fst snd]. qnum.
    change (Qsum (values ((p, v) :: tm))) with (v + Qsum (values tm)).
    assert (Hle : Qle_bool th r = true) by now apply Qle_bool_iff.
    rewrite Hle. cbn [andb].
    destruct (Qle_bool (th + v) r) eqn:E; cbn [negb].
    + apply Qle_bool_iff in E.
      destruct (IH (th + v) Hpos' E) as [Hin Hout]. split.
      * intros Hr.
        destruct Hin as [pre [q [w [suf [Htm [Hsel [Hlo Hhi]]]]]]]; [lra|].
        exists ((p, v) :: pre), q, w, suf.
        split; [now rewrite Htm|]. split; [exact Hsel|].
        change (Qsum (values ((p, v) :: pre))) with (v + Qsum (values pre)).
        split; lra.
      * intros Hr. apply Hout. lra.
    + assert (Hlt : r < th + v).
      { apply Qnot_le_lt. intros H. apply Qle_bool_iff in H. congruence. }
      split.
      * intros _. exists [], p, v, tm. split; [reflexivity|].
        split; [reflexivity|]. change (Qsum (values [])) with 0. split; lra.
      * intros Hr.
        assert (0 <= Qsum (values tm)).
        { apply Qsum_nonneg. intros x Hx. unfold values in Hx.
          apply in_map_iff in Hx.
          destruct Hx as [[p0 v0] [<- Hin0]]. now apply (Hpos' p0). }
        lra.
Qed.

(** X11. In exact arithmetic, for a distribution with distinct pages and
    non-negative weights and a draw [r >= 0]: [transform_model] followed by
    the sampler's inner loop returns the page whose cumulative interval,
    from the sum of the weights before it to that sum plus its own weight,
    holds [r]; and when [r] is not below the total weight no page matches
    and the current page is kept. *)
Theorem sampler_draws_by_cumulative_weight (tm : pydict Q) (r : Q)
    (page : pagename) :
  NoDup (keys tm) -> (forall p v, In (p, v) tm -> 0 <= v) -> 0 <= r ->
  exists model,
    transform_model tm = Ok model /\ keys model = keys tm /\
    (r < Qsum (values tm) ->
     exists pre q v suf,
       tm = pre ++ (q, v) :: suf /\
       draw_page model (keys model) r page = Ok q /\
       Qsum (values pre) <= r /\ r < Qsum (values pre) + v) /\
    (Qsum (values tm) <= r -> draw_page model (keys model) r page = Ok page).
Proof.
  intros Hnd Hpos Hr. exists (ranges tm 0).
  split; [exact (@transform_model_ranges Q QNum tm Hnd)|].
  split; [apply keys_ranges|].
  assert (Hndm : NoDup (keys (ranges tm 0))) by now rewrite keys_ranges.
  rewrite (@draw_page_select Q QNum (ranges tm 0) r page Hndm).
  destruct (@select_ranges tm 0 r page Hpos Hr) as [Hin Hout]. split.
  - intros Hlt. destruct Hin as [pre [q [v [suf [Htm [Hsel [Hlo Hhi]]]]]]];
      [lra|].
    exists pre, q, v, suf. rewrite Hsel. repeat split; try assumption; lra.
  - intros Hge. rewrite Hout; [reflexivity | lra].
Qed.




(** ** [iterate_pagerank]: graphs it settles at once, and how close it stops *)


(** When one round from the initial ranks gives every page [1/N] again, the
    test of the first round holds, and [iterate_pagerank] returns after it. *)
Lemma uniform_returned (corpus : pydict pyset) (d : Q) :
  well_formed corpus = true -> corpus <> [] ->
  (forall p, In p (keys corpus) ->
     new_rank (normalized corpus) d (rank_of (first_rank (normalized corpus))) p
     == 1 / inject_Z (len corpus)) ->
  exists pr,
    (forall fuel, iterate_pagerank (S fuel) corpus d = Some (Ok pr)) /\
    keys pr = keys corpus /\
    forall p v, In (p, v) pr -> v == 1 / inject_Z (len corpus).
Proof.
  intros Hwf Hne Hbal.
  pose proof (normalized_proper Hwf Hne) as Hprop.
  pose proof (normalized_nonempty Hne) as Hne'.
  set (nc := normalized corpus) in *.
  assert (Hone : forall p, In p (keys nc) ->
            rank_of (rank_iter 1 nc d) p == 1 / inject_Z (len nc)).
  { intros p Hp. cbn [rank_iter]. rewrite rank_of_next_rank.
    - unfold nc at 3. rewrite len_normalized. apply Hbal.
      unfold nc in Hp. now rewrite keys_normalized in Hp.
    - now rewrite keys_first_rank. }
  assert (Hconv : converged 0 nc d = true).
  { unfold converged.
    assert (Hnz : deltas nc (rank_iter 0 nc d) (rank_iter 1 nc d) <> [])
      by (apply deltas_nonempty; assumption).
    destruct (pymax_spec Hnz) as [m [Hm [Hin _]]]. rewrite Hm.
    unfold deltas in Hin. apply in_map_iff in Hin.
    destruct Hin as [p [Hmp Hp]]. qnum. apply Qle_bool_iff.
    rewrite <- Hmp, (Hone p Hp). cbn [rank_iter].
    rewrite rank_of_first_rank by assumption.
    rewrite tolerance_Q.
    setoid_replace (1 / inject_Z (len nc) - 1 / inject_Z (len nc)) with 0
      by ring.
    discriminate. }
  exists (rank_iter 1 nc d). split; [|split].
  - intros fuel. rewrite iterate_pagerank_loop by assumption. fold nc.
    rewrite iterate_loop_step by assumption. now rewrite Hconv.
  - rewrite keys_rank_iter. apply keys_normalized.
  - intros p v Hin.
    assert (Hnd : NoDup (keys (rank_iter 1 nc d))).
    { rewrite keys_rank_iter. apply Hprop. }
    assert (Hp : In p (keys nc)).
    { rewrite <- (keys_rank_iter 1 nc d). apply in_map_iff.
      exists (p, v). auto. }
    pose proof (Hone p Hp) as Hv. unfold rank_of in Hv.
    rewrite (getitem_In _ _ _ Hnd Hin) in Hv. rewrite Hv.
    unfold nc. now rewrite len_normalized.
Qed.



(** X15. With a damping factor of 0 the links play no part: on every
    non-empty graph [iterate_pagerank] returns after its first round and gives
    every page exactly [1/N] (exact arithmetic). *)
Theorem zero_damping_uniform (corpus : pydict pyset) :
  well_formed corpus = true -> corpus <> [] ->
  exists pr,
    (forall fuel, iterate_pagerank (S fuel) corpus 0 = Some (Ok pr)) /\
    keys pr = keys corpus /\
    forall p v, In (p, v) pr -> v == 1 / inject_Z (len corpus).
Proof.
  intros Hwf Hne. apply uniform_returned; try assumption.
  intros p Hp. unfold new_rank. rewrite len_normalized.
  pose proof (len_pos Hne) as HN. revert HN.
  generalize (inject_Z (len corpus)).
  generalize
    (Qsum
       (map (fun q : pagename * pyset =>
               rank_of (first_rank (normalized corpus)) (fst q)
               / inject_Z (len (snd q)))
          (filter (fun q : pagename * pyset => contains (snd q) p)
             (normalized corpus)))).
  intros s N HN. field. lra.
Qed.



(** ** [transition_model] on a graph with links that lead nowhere *)

(** The pages a set of links holds, and the links that are no page, make up
    the links. *)
Lemma count_links_split (pages : list pagename) (links : pyset) :
  NoDup pages -> NoDup links ->
  (len (filter (contains links) pages)
   + len (filter (fun q => negb (contains pages q)) links))%Z
  = len links.
Proof.
  intros Hp Hl. unfold len. rewrite <- Nat2Z.inj_add. f_equal.
  rewrite <- (filter_length (contains pages) links). f_equal.
  apply Nat.le_antisymm; apply NoDup_incl_length;
    try (now apply NoDup_filter);
    intros q Hq; apply filter_In in Hq; destruct Hq as [Hq1 Hq2];
    apply contains_In in Hq2; apply filter_In; split;
    solve [assumption | now apply contains_In].
Qed.

(** X17. [transition_model] does not check the links of the page: a link to
    something that is not a page of the graph gets no entry, its share [d/L]
    is given to no one, and the values of the mapping sum to [1 - d*m/L],
    where [m] of the [L] links of the page lead outside the graph (exact
    arithmetic, any damping factor). *)
Theorem transition_model_outside_links (corpus : pydict pyset) (p : pagename)
    (links : pyset) (d : Q) :
  well_formed corpus = true -> getitem corpus p = Ok links -> links <> [] ->
  exists tm,
    transition_model corpus p d = Ok tm /\
    keys tm = keys corpus /\
    Qsum (values tm)
    == 1 - d * inject_Z (len (filter (fun q => negb (contains (keys corpus) q))
                                links))
             / inject_Z (len links).
Proof.
  intros Hwf Hget Hnz.
  pose proof (well_formed_keys _ Hwf) as Hnd.
  assert (Hl : NoDup links).
  { apply getitem_Ok_In in Hget. eapply well_formed_links; eassumption. }
  eexists. split; [apply transition_model_Ok; [exact Hnd | exact Hget]|].
  split; [apply keys_map_pair|].
  rewrite values_map_pair. unfold transition_value. qnum.
  assert (HN : 0 < inject_Z (len corpus)).
  { apply len_pos. intros ->. discriminate. }
  assert (HL : 0 < inject_Z (len links)) by now apply len_pos.
  change (inject_Z 1) with 1. change (inject_Z 0) with 0.
  destruct (len links =? 0)%Z eqn:E.
  { apply len_zero_nil in E. contradiction. }
  rewrite (Qsum_map_plus
             (fun q => if contains links q then d / inject_Z (len links)
                       else 0)
             (fun _ => (1 - d) / inject_Z (len corpus))).
  rewrite Qsum_map_const, len_keys, Qsum_indicator.
  rewrite <- (count_links_split Hnd Hl) at 2. rewrite inject_Z_plus.
  pose proof (count_links_split Hnd Hl) as Hsplit.
  apply (f_equal inject_Z) in Hsplit. rewrite inject_Z_plus in Hsplit.
  revert HN HL Hsplit.
  generalize (inject_Z (len corpus)), (inject_Z (len links)),
    (inject_Z (len (filter (contains links) (keys corpus)))),
    (inject_Z (len (filter (fun q => negb (contains (keys corpus) q)) links))).
  intros N L a b HN HL Hsplit.
  assert (Hab : a + b == L) by (rewrite Hsplit; reflexivity).
  assert (Ha : a == L - b) by lra.
  rewrite Ha. field. split; lra.
Qed.

(** ** The further properties at concrete inputs *)

(** What [crawl] returns on [site]: the links of page 1 to itself, to the
    missing page and to the notes are dropped, the double link is kept
    once. *)
Lemma crawl_site :
  crawl site_hrefs site
  = Ok [("1.html", ["2.html"]); ("2.html", ["1.html"; "3.html"]);
        ("3.html", ["2.html"])]%string.
Proof. vm_compute. reflexivity. Qed.

Lemma crawl_keys_witness :
  NoDup (map fst site) /\
  exists g, crawl site_hrefs site = Ok g /\
            keys g = filter (fun name => endswith name ".html") (map fst site).
Proof.
  assert (Hnd : NoDup (map fst site)) by (apply distinct_NoDup; reflexivity).
  split; [exact Hnd|].
  exact (@crawl_keys site_hrefs site Hnd).
Defined.

Lemma crawl_links_witness :
  NoDup (map fst site) /\
  In ("1.html", "text of 1")%string site /\
  endswith "1.html" ".html" = true /\
  exists g links,
    crawl site_hrefs site = Ok g /\ getitem g "1.html" = Ok links /\
    forall q, In q links <->
              In q (site_hrefs "text of 1") /\ q <> "1.html"%string /\
              In q (map fst site) /\ endswith q ".html" = true.
Proof.
  assert (Hnd : NoDup (map fst site)) by (apply distinct_NoDup; reflexivity).
  assert (Hin : In ("1.html", "text of 1")%string site) by (left; reflexivity).
  split; [exact Hnd|]. split; [exact Hin|]. split; [reflexivity|].
  exact (@crawl_links site_hrefs site "1.html" "text of 1" Hnd Hin eq_refl).
Defined.


Lemma crawl_nothing_to_rank_witness :
  (forall entry, In entry no_pages -> is_html entry = false) /\
  crawl site_hrefs no_pages = Ok [] /\
  sample_pagerank [] 0x1.b333333333333p-1%float 10000 rng_half
  = Raise IndexError /\
  iterate_pagerank 1 [] 0x1.b333333333333p-1%float = Some (Raise ValueError).
Proof.
  assert (Hnone : forall entry, In entry no_pages -> is_html entry = false).
  { intros entry [<-|[<-|[]]]; reflexivity. }
  split; [exact Hnone|].
  exact (@crawl_nothing_to_rank site_hrefs float FloatNum no_pages
           0x1.b333333333333p-1%float 10000 rng_half 0%nat Hnone).
Defined.

Lemma iterate_pagerank_no_exception_witness :
  well_formed g3 = true /\ g3 <> [] /\
  exists r,
    iterate_pagerank 40 g3 0x1.b333333333333p-1%float = Some r /\
    exists pr, r = Ok pr /\ keys pr = keys g3.
Proof.
  assert (Hne : g3 <> []) by discriminate.
  assert (Hrun : exists r,
            iterate_pagerank 40 g3 0x1.b333333333333p-1%float = Some r).
  { vm_compute. eexists. reflexivity. }
  split; [reflexivity|]. split; [exact Hne|].
  destruct Hrun as [r Hrun]. exists r. split; [exact Hrun|].
  exact (@iterate_pagerank_no_exception float FloatNum 40 g3
           0x1.b333333333333p-1%float r eq_refl Hne Hrun).
Defined.

Lemma sample_pagerank_no_exception_witness :
  well_formed g3 = true /\ g3 <> [] /\ (1 <= 5)%Z /\
  exists counts,
    sample_counts g3 0x1.b333333333333p-1%float 5 rng_half = Ok counts /\
    keys counts = keys g3 /\
    (forall p c, In (p, c) counts -> (0 <= c <= 5 + 1)%Z) /\
    sample_pagerank g3 0x1.b333333333333p-1%float 5 rng_half
    = Ok (map (fun kv => (fst kv, fdiv (of_int (snd kv)) (of_int 5))) counts).
Proof.
  assert (Hne : g3 <> []) by discriminate.
  assert (Hn : (1 <= 5)%Z) by discriminate.
  split; [reflexivity|]. split; [exact Hne|]. split; [exact Hn|].
  exact (@sample_pagerank_no_exception float FloatNum g3
           0x1.b333333333333p-1%float 5 rng_half eq_refl Hne Hn).
Defined.

Lemma sample_pagerank_zero_samples_witness :
  well_formed g3 = true /\ g3 <> [] /\
  sample_pagerank g3 (85 # 100) 0 rng_sevenths = Raise ZeroDivisionError.
Proof.
  assert (Hne : g3 <> []) by discriminate.
  split; [reflexivity|]. split; [exact Hne|].
  exact (@sample_pagerank_zero_samples Q QNum g3 (85 # 100) rng_sevenths
           eq_refl Hne).
Defined.


Lemma sample_cache_transparent_witness :
  well_formed g3 = true /\
  sample_counts g3 (85 # 100) 5 rng_sevenths
  = sample_counts_uncached g3 (85 # 100) 5 rng_sevenths.
Proof.
  split; [reflexivity|].
  exact (@sample_cache_transparent Q QNum g3 (85 # 100) 5 rng_sevenths eq_refl).
Defined.

Lemma sampler_draws_by_cumulative_weight_witness :
  NoDup (keys halves) /\ (forall p v, In (p, v) halves -> 0 <= v) /\
  0 <= 3 # 5 /\
  exists model,
    transform_model halves = Ok model /\ keys model = keys halves /\
    (3 # 5 < Qsum (values halves) ->
     exists pre q v suf,
       halves = pre ++ (q, v) :: suf /\
       draw_page model (keys model) (3 # 5) "A" = Ok q /\
       Qsum (values pre) <= 3 # 5 /\ 3 # 5 < Qsum (values pre) + v) /\
    (Qsum (values halves) <= 3 # 5 ->
     draw_page model (keys model) (3 # 5) "A" = Ok "A"%string).
Proof.
  assert (Hnd : NoDup (keys halves)) by (apply distinct_NoDup; reflexivity).
  assert (Hpos : forall p v, In (p, v) halves -> 0 <= v).
  { intros p v [H|[H|[H|[]]]]; inversion H; discriminate. }
  assert (Hr : 0 <= 3 # 5) by discriminate.
  split; [exact Hnd|]. split; [exact Hpos|]. split; [exact Hr|].
  exact (@sampler_draws_by_cumulative_weight halves (3 # 5) "A" Hnd Hpos Hr).
Defined.




Lemma zero_damping_uniform_witness :
  well_formed g3 = true /\ g3 <> [] /\
  exists pr,
    (forall fuel, iterate_pagerank (S fuel) g3 0 = Some (Ok pr)) /\
    keys pr = keys g3 /\
    forall p v, In (p, v) pr -> v == 1 / inject_Z (len g3).
Proof.
  assert (Hne : g3 <> []) by discriminate.
  split; [reflexivity|]. split; [exact Hne|].
  exact (@zero_damping_uniform g3 eq_refl Hne).
Defined.


Lemma transition_model_outside_links_witness :
  well_formed stray2 = true /\
  getitem stray2 "A" = Ok ["B"; "Z"]%string /\
  ["B"; "Z"]%string <> [] /\
  exists tm,
    transition_model stray2 "A" (85 # 100) = Ok tm /\
    keys tm = keys stray2 /\
    Qsum (values tm)
    == 1 - (85 # 100)
           * inject_Z (len (filter (fun q => negb (contains (keys stray2) q))
                              ["B"; "Z"]%string))
           / inject_Z (len ["B"; "Z"]%string).
Proof.
  assert (Hnz : ["B"; "Z"]%string <> []) by discriminate.
  split; [reflexivity|]. split; [reflexivity|]. split; [exact Hnz|].
  exact (@transition_model_outside_links stray2 "A" ["B"; "Z"]%string
           (85 # 100) eq_refl eq_refl Hnz).
Defined.

(** The sum of X17 on [stray2]: the values of the model of [A] add up to
    [0.575], not to 1. *)
Lemma outside_link_loses_mass :
  exists tm, transition_model stray2 "A" (85 # 100) = Ok tm /\
             Qsum (values tm) == 575 # 1000.
Proof.
  eexists. split; [vm_compute; reflexivity|]. vm_compute. reflexivity.
Qed.

(** The second case of X11 arises in binary64: from the ten pages of
    [isolated10] the ten ranges of width [0.1] end below 1, and the draw just
    below 1 falls in none of them, so the sampler stays where it is. *)
Lemma draw_beyond_total_binary64 :
  next_page isolated10 0x1.b333333333333p-1%float 0x1.fffffffffffffp-1%float "3"
  = Ok "3"%string /\
  next_page isolated10 0x1.b333333333333p-1%float 0x1.ffffffffffffep-1%float "3"
  = Ok "9"%string.
Proof. split; vm_compute; reflexivity. Qed.
